(** * travel: a CSV of visits turned into GeoJSON

    A shallow embedding of the three Go programs of the repository:

    - the deduplicating converter (first program of [part_000]):
      module [Dedup];
    - the converter with the geocode lookup, the year colours and the
      per-purpose files (second program of [part_000]): module [Travel];
    - [resolve/resolve.go]: module [Resolve].

    Go's [float64] is IEEE 754 binary64, taken from the Standard Library's
    [SpecFloat]; [time.Time] values are calendar dates (every time of these
    programs comes from [time.Parse] with the layout [2006-01-02], or is the
    zero time); strings are byte strings.  What the programs get from
    outside (the network, [strconv.ParseFloat], [strings.TrimSpace], the
    sorting routine, path functions) is a record of operations, [Platform];
    a nil pointer dereference is the outcome [Panic]. *)

From Stdlib Require Import ZArith List String Ascii Lia Bool.
From Stdlib Require Import Sorting.Permutation Sorting.Sorted.
From Stdlib Require Import Floats.SpecFloat.
From stdpp Require Import gmap strings list.

Open Scope Z_scope.
Set Warnings "-clear-no-such-hyp".

(** ** Decimal digits *)

Definition digit (n : Z) : ascii := ascii_of_nat (Z.to_nat (48 + n mod 10)).

(** [fixed_digits k n]: the last [k] decimal digits of [n], zero padded. *)
Fixpoint fixed_digits (k : nat) (n : Z) : string :=
  match k with
  | O => EmptyString
  | S k' => fixed_digits k' (n / 10) +:+ String (digit n) EmptyString
  end.

(** The decimal digits of [n >= 0] without padding; ["0"] for zero.  The
    first argument bounds the number of digits. *)
Fixpoint nat_digits (fuel : nat) (n : Z) : string :=
  match fuel with
  | O => EmptyString
  | S f =>
      if n <? 10 then String (digit n) EmptyString
      else nat_digits f (n / 10) +:+ String (digit n) EmptyString
  end.

Definition itoa (n : Z) : string :=
  nat_digits (S (Z.to_nat (Z.log2 n))) n.

Definition is_digit (c : ascii) : bool :=
  let n := Z.of_nat (nat_of_ascii c) in (48 <=? n) && (n <=? 57).

Definition digit_val (c : ascii) : Z := Z.of_nat (nat_of_ascii c) - 48.

(** The number a string of decimal digits denotes. *)
Definition decimal_value (s : string) : Z :=
  fold_left (λ acc c, acc * 10 + digit_val c) (list_ascii_of_string s) 0.

Definition all_digits (s : string) : bool :=
  forallb is_digit (list_ascii_of_string s).

(** [s] is a decimal number with [p] decimals: an optional minus sign,
    digits, a point and [p] digits; it denotes [n / 10^p], where [n] is
    the number read without the point, negated under a minus sign. *)
Definition denotes (p : nat) (s : string) (n : Z) : Prop :=
  ∃ (sg : bool) (ip fp : string),
    s = (if sg then "-" else EmptyString) +:+ ip +:+ "." +:+ fp
    ∧ all_digits ip = true ∧ ip ≠ EmptyString
    ∧ all_digits fp = true ∧ String.length fp = p
    ∧ n = (if sg then -1 else 1)
          * (decimal_value ip * 10 ^ Z.of_nat p + decimal_value fp).

(** ** float64 *)

Module F64.

Definition float64 := spec_float.

Definition prec : Z := 53.
Definition emax : Z := 1024.

Definition zero : float64 := S754_zero false.

(** [float64(k)] for an integer [k]: the nearest binary64 value. *)
Definition of_int (k : Z) : float64 := binary_normalize prec emax k 0 false.

Definition mul (x y : float64) : float64 := SFmul prec emax x y.
Definition div (x y : float64) : float64 := SFdiv prec emax x y.

(** Go's [x == y] on floats. *)
Definition eqb (x y : float64) : bool := SFeqb x y.

(** The binary64 value nearest to [n / 10^k]: how Go reads the decimal
    constant with digits [n] and [k] decimals. *)
Definition of_decimal (n : Z) (k : nat) : float64 :=
  match n with
  | Z0 => zero
  | Zpos p => div (S754_finite false p 0) (S754_finite false (Z.to_pos (10 ^ Z.of_nat k)) 0)
  | Zneg p => div (S754_finite true p 0) (S754_finite false (Z.to_pos (10 ^ Z.of_nat k)) 0)
  end.

(** The integer part of a finite value, rounded toward zero. *)
Definition trunc (s : bool) (m : positive) (e : Z) : Z :=
  let a := if 0 <=? e then Zpos m * 2 ^ e else Zpos m / 2 ^ (- e) in
  if s then - a else a.

Definition int_min : Z := - 2 ^ 63.
Definition int_max : Z := 2 ^ 63 - 1.

(** Go's conversion [int(x)] on a 64-bit platform: the fractional part
    is discarded; when the value does not fit, the result depends on
    the implementation, and is [None] here. *)
Definition to_int (x : float64) : option Z :=
  match x with
  | S754_zero _ => Some 0
  | S754_finite s m e =>
      let k := trunc s m e in
      if (int_min <=? k) && (k <=? int_max) then Some k else None
  | _ => None
  end.

(** [k] is the finite value [x] with its fractional part discarded:
    [k] has the sign of [x] and [|k| <= |x| < |k| + 1], where
    [|x| = m * 2^e]. *)
Definition integer_part (x : float64) (k : Z) : Prop :=
  match x with
  | S754_zero _ => k = 0
  | S754_finite s m e =>
      (if s then k <= 0 else 0 <= k) /\
      Z.abs k * 2 ^ Z.max 0 (- e) <= Zpos m * 2 ^ Z.max 0 e
        < (Z.abs k + 1) * 2 ^ Z.max 0 (- e)
  | _ => False
  end.

(** The integer nearest to [a / b] for [b > 0], ties to even. *)
Definition round_half_even (a b : Z) : Z :=
  let q := a / b in
  let r := a mod b in
  match 2 * r ?= b with
  | Lt => q
  | Gt => q + 1
  | Eq => if Z.even q then q else q + 1
  end.

(** [|x| * 10^p] rounded to the nearest integer, for finite [x = m * 2^e]. *)
Definition scaled (p : nat) (m : positive) (e : Z) : Z :=
  if 0 <=? e then Zpos m * 2 ^ e * 10 ^ Z.of_nat p
  else round_half_even (Zpos m * 10 ^ Z.of_nat p) (2 ^ (- e)).

(** The decimal notation of [n / 10^p] with exactly [p] decimals. *)
Definition fixed (p : nat) (n : Z) : string :=
  let ip := itoa (n / 10 ^ Z.of_nat p) in
  match p with
  | O => ip
  | _ => ip +:+ "." +:+ fixed_digits p n
  end.

Definition sign_string (s : bool) : string := if s then "-" else EmptyString.

(** [strconv.FormatFloat(x, 'f', p, 64)], which is also what
    [fmt.Sprintf] prints for the verb [%.0pf]: the exact value of [x]
    correctly rounded to [p] decimals. *)
Definition FormatFloat (p : nat) (x : float64) : string :=
  match x with
  | S754_nan => "NaN"
  | S754_infinity s => if s then "-Inf" else "+Inf"
  | S754_zero s => sign_string s +:+ fixed p 0
  | S754_finite s m e => sign_string s +:+ fixed p (scaled p m e)
  end.

(** *** Vocabulary of the properties *)

Definition finite (x : float64) : bool :=
  match x with
  | S754_zero _ | S754_finite _ _ _ => true
  | _ => false
  end.

(** The sign bit. *)
Definition signbit (x : float64) : bool :=
  match x with
  | S754_zero s | S754_infinity s | S754_finite s _ _ => s
  | S754_nan => false
  end.

(** The mantissa of a finite value with its sign: the value is
    [signed s m * 2^e]. *)
Definition signed (s : bool) (m : positive) : Z := if s then Zneg m else Zpos m.

(** The number of low bits that rounding to a float64 drops from the
    exact mantissa [m] of a value [m * 2^e]. *)
Definition shift (m e : Z) : Z :=
  Z.max 0 (fexp prec emax (Zdigits2 m + e) - e).

(** The integer part of [c * x], computed exactly and rounded toward
    zero: [c * x] is [(c * m) * 2^e]. *)
Definition scaled_trunc (c : positive) (x : float64) : Z :=
  match x with
  | S754_finite s m e => trunc s (c * m) e
  | _ => 0
  end.

(** [n / 10^p] is within half a unit of the [p]th decimal of [x], sign
    included: [|n / 10^p - x| <= 10^-p / 2] for [x = signed s m * 2^e],
    cleared of fractions. *)
Definition within_half_unit (p : nat) (x : float64) (n : Z) : Prop :=
  match x with
  | S754_zero _ => n = 0
  | S754_finite s m e =>
      2 * Z.abs (n * 2 ^ Z.max 0 (- e)
                 - signed s m * 2 ^ Z.max 0 e * 10 ^ Z.of_nat p)
      <= 2 ^ Z.max 0 (- e)
  | _ => False
  end.

(** The text [s] is a decimal number with [p] decimals, and the number
    it denotes, with its sign, is within half a unit of the last decimal
    of [x]. *)
Definition accurate (p : nat) (x : float64) (s : string) : Prop :=
  exists n : Z, denotes p s n /\ within_half_unit p x n.

End F64.

Abbreviation float64 := F64.float64.

(** ** time.Time, for the layout [2006-01-02] *)

Module Time.

(** A date of the proleptic Gregorian calendar, at midnight UTC. *)
Record t := mk { year : Z; month : Z; day : Z }.

(** [time.Time{}]: January 1 of year 1. *)
Definition zero : t := mk 1 1 1.

Definition isLeap (y : Z) : bool :=
  (y mod 4 =? 0) && (negb (y mod 100 =? 0) || (y mod 400 =? 0)).

Definition daysIn (m y : Z) : Z :=
  if m =? 2 then (if isLeap y then 29 else 28)
  else if (m =? 4) || (m =? 6) || (m =? 9) || (m =? 11) then 30
  else 31.

Definition num2 (a b : ascii) : Z := digit_val a * 10 + digit_val b.

(** [time.Parse("2006-01-02", s)]: four digits, a dash, two digits, a
    dash, two digits and nothing else; the month in 1..12 and the day
    within the month.  The boolean is [true] when Go returns an error,
    and the time is then the zero time. *)
Definition Parse (s : string) : t * bool :=
  match list_ascii_of_string s with
  | [y1; y2; y3; y4; s1; m1; m2; s2; d1; d2] =>
      let y := num2 y1 y2 * 100 + num2 y3 y4 in
      let m := num2 m1 m2 in
      let d := num2 d1 d2 in
      if forallb is_digit [y1; y2; y3; y4; m1; m2; d1; d2]
         && Ascii.eqb s1 "-" && Ascii.eqb s2 "-"
         && (1 <=? m) && (m <=? 12) && (1 <=? d) && (d <=? daysIn m y)
      then (mk y m d, false)
      else (zero, true)
  | _ => (zero, true)
  end.

(** Go's [appendInt]: a sign, then the digits padded with zeros to
    [width]. *)
Definition appendInt (x : Z) (width : nat) : string :=
  let u := Z.abs x in
  (if x <? 0 then "-" else EmptyString)
  +:+ (if u <? 10 ^ Z.of_nat width then fixed_digits width u else itoa u).

(** [x.Format("2006-01-02")]. *)
Definition Format (x : t) : string :=
  appendInt (year x) 4 +:+ "-" +:+ fixed_digits 2 (month x)
  +:+ "-" +:+ fixed_digits 2 (day x).

Definition compare (a b : t) : comparison :=
  match year a ?= year b with
  | Eq => match month a ?= month b with
          | Eq => day a ?= day b
          | c => c
          end
  | c => c
  end.

Definition Equal (a b : t) : bool :=
  match compare a b with Eq => true | _ => false end.

Definition Before (a b : t) : bool :=
  match compare a b with Lt => true | _ => false end.

(** [a.Compare(b)]: -1, 0 or +1. *)
Definition Compare (a b : t) : Z :=
  match compare a b with Lt => -1 | Eq => 0 | Gt => 1 end.

Definition Year (x : t) : Z := year x.

End Time.

(** ** Outcomes of a run *)

(** A Go function either returns or panics (here: a nil pointer is
    dereferenced, or an index is out of range). *)
Inductive outcome (A : Type) : Type :=
  | Done (a : A)
  | Panic.
Arguments Done {A} a.
Arguments Panic {A}.

Global Instance outcome_ret : MRet outcome := @Done.
Global Instance outcome_bind : MBind outcome :=
  λ A B f m, match m with Done a => f a | Panic => Panic end.
Global Instance outcome_fmap : FMap outcome :=
  λ A B f m, match m with Done a => Done (f a) | Panic => Panic end.

(** [*p] for a pointer that may be nil. *)
Definition deref {A} (p : option A) : outcome A :=
  match p with Some a => Done a | None => Panic end.

(** A loop over [l] that threads the state [s] and stops at a panic. *)
Fixpoint foldM {A S} (f : S → A → outcome S) (s : S) (l : list A) : outcome S :=
  match l with
  | [] => Done s
  | a :: l' => s' ← f s a; foldM f s' l'
  end.

(** ** What the programs take from outside *)

Inductive NumError := ErrSyntax | ErrRange.

(** One entry of the geocoder's [results]: [formatted_address] and
    [geometry.location]. *)
Record geo_result := { Address : string; Lat : float64; Lng : float64 }.

Inductive body :=
  | Unreadable
  | Readable (bs : string).

Record response := { StatusCode : Z; Body : body }.

Class Platform := {
  (** [strings.TrimSpace] *)
  TrimSpace : string → string;
  (** [strconv.ParseFloat(s, 64)]: the value and the error, if any *)
  ParseFloat : string → float64 * option NumError;
  (** what [int(x)] gives when [x] does not fit an [int] *)
  int_unrepresentable : float64 → Z;
  (** [os.Getenv], [url.Values.Encode] and [url.QueryEscape] *)
  Getenv : string → string;
  Values_Encode : list (string * string) → string;
  QueryEscape : string → string;
  (** [http.Get]: [None] for a transport error *)
  http_Get : string → option response;
  (** [json.Unmarshal] of a body into a [result]: its [Results], or
      [None] for an error *)
  json_Unmarshal : string → option (list geo_result);
  (** [json.NewDecoder(body).Decode] into a [result] *)
  json_Decode : body → option (list geo_result);
  (** [sort.Sort] over a [Less], and [slices.SortFunc] *)
  sort_Sort : ∀ A : Type, (A → A → bool) → list A → list A;
  slices_SortFunc : ∀ A : Type, (A → A → Z) → list A → list A;
  (** [strings.Replace(s, old, new, 1)] and [path/filepath] *)
  strings_Replace1 : string → string → string → string;
  filepath_Dir : string → string;
  filepath_Base : string → string;
  filepath_Join : string → string → string;
}.
Arguments sort_Sort {_ _} _ _.
Arguments slices_SortFunc {_ _} _ _.

(** What Go's documentation promises of the two sorting routines, for an
    ordering that is a strict weak order: the result is a rearrangement
    of the input in which no element is less than an earlier one. *)
Record strict_weak {A} (less : A → A → bool) : Prop := {
  sw_irrefl : ∀ a, less a a = false;
  sw_trans : ∀ a b c, less a b = true → less b c = true → less a c = true;
  sw_incomp : ∀ a b c, less a b = false → less b a = false →
                       less b c = false → less c b = false →
                       less a c = false ∧ less c a = false;
}.

Definition ascending {A} (less : A → A → bool) (l : list A) : Prop :=
  StronglySorted (λ a b, less b a = false) l.

(** A three-way comparison that is an order up to its [Eq]. *)
Record comparison_order {A} (cmp : A → A → comparison) : Prop := {
  co_refl : ∀ a, cmp a a = Eq;
  co_antisym : ∀ a b, cmp b a = CompOpp (cmp a b);
  co_trans : ∀ a b c, cmp a b = Lt → cmp b c = Lt → cmp a c = Lt;
  co_eq : ∀ a b c, cmp a b = Eq → cmp a c = cmp b c;
}.

Definition is_Lt (c : comparison) : bool :=
  match c with Lt => true | _ => false end.

Class Sorts (P : Platform) : Prop := {
  sort_Sort_perm : ∀ A (less : A → A → bool) l, Permutation l (sort_Sort less l);
  sort_Sort_ascending : ∀ A (less : A → A → bool) l,
    strict_weak less → ascending less (sort_Sort less l);
  SortFunc_perm : ∀ A (cmp : A → A → Z) l, Permutation l (slices_SortFunc cmp l);
  SortFunc_ascending : ∀ A (cmp : A → A → Z) l,
    strict_weak (λ a b, cmp a b <? 0) →
    ascending (λ a b, cmp a b <? 0) (slices_SortFunc cmp l);
}.

Section Conversions.
Context `{Platform}.

(** Go's [int(x)]. *)
Definition int_of_float (x : float64) : Z :=
  match F64.to_int x with
  | Some k => k
  | None => int_unrepresentable x
  end.

(** [float64(int(10000*x)) / 10000], the coordinate the GeoJSON
    feature carries. *)
Definition truncate4 (x : float64) : float64 :=
  F64.div (F64.of_int (int_of_float (F64.mul (F64.of_int 10000) x)))
          (F64.of_int 10000).

End Conversions.

(** ** The deduplicating converter ([part_000], first program) *)

Module Dedup.

Record visit := {
  address : string;
  when : Time.t;
  lat : float64;
  lng : float64;
}.

(** A GeoJSON [Feature] with a [Point] geometry: the coordinates and
    the properties [date] and [name]. *)
Record feature := {
  coordinates : list float64;
  date : string;
  name : string;
}.

Section Program.
Context `{Platform}.

(** [nil] for a row that does not have five fields. *)
Definition visitFromStrings (fs : list string) : option visit :=
  match fs with
  | [f0; _; f2; f3; f4] =>
      Some {| when := fst (Time.Parse (TrimSpace f0));
              address := TrimSpace f2;
              lat := fst (ParseFloat (TrimSpace f3));
              lng := fst (ParseFloat (TrimSpace f4)) |}
  | _ => None
  end.

Definition MarshalJSON (v : visit) : feature :=
  {| coordinates := [truncate4 (lng v); truncate4 (lat v)];
     date := Time.Format (when v);
     name := address v |}.

(** [fmt.Sprintf("%.04f,%.04f", a, b)] *)
Definition Sprintf_coords (a b : float64) : string :=
  F64.FormatFloat 4 a +:+ "," +:+ F64.FormatFloat 4 b.

(** The body of the reading loop of [main]: the state is
    [seenCoords] and [visits]; [in] is the record just read. *)
Definition read_step (st : gset string * list visit) (row : list string)
  : outcome (gset string * list visit) :=
  let '(seenCoords, visits) := st in
  visit ← deref (visitFromStrings row);
  let coords := Sprintf_coords (lat visit) (lat visit) in
  if decide (coords ∈ seenCoords) then Done (seenCoords, visits)
  else Done ({[coords]} ∪ seenCoords, visits ++ [visit]).

(** The loop, over the records the CSV reader returns before its
    first error. *)
Definition read_visits (rows : list (list string)) : outcome (list visit) :=
  st ← foldM read_step (∅, []) rows; Done (snd st).

Definition saveVisits (visits : list visit) (fname : string)
  : string * list feature :=
  (fname, map MarshalJSON visits).

(** [main]: the file written, its name and its features. *)
Definition main (file : string) (rows : list (list string))
  : outcome (string * list feature) :=
  visits ← read_visits rows;
  let visits := slices_SortFunc (λ a b, Time.Compare (when a) (when b)) visits in
  let fname := strings_Replace1 file ".csv" ".geojson" in
  Done (saveVisits visits fname).

(** *** Vocabulary of the properties *)

(** The visits of the rows that have five fields, in order. *)
Definition parsed (rows : list (list string)) : list visit :=
  omap visitFromStrings rows.

(** The text the loop keys a visit by. *)
Definition key (v : visit) : string := Sprintf_coords (lat v) (lat v).

(** Two visits have the same latitude after rounding to 4 decimals. *)
Definition same_lat4 (u v : visit) : bool :=
  String.eqb (F64.FormatFloat 4 (lat u)) (F64.FormatFloat 4 (lat v)).

(** Two visits have the same longitude after rounding to 4 decimals. *)
Definition same_lng4 (u v : visit) : bool :=
  String.eqb (F64.FormatFloat 4 (lng u)) (F64.FormatFloat 4 (lng v)).

(** The row has five fields and [ParseFloat] fails on its latitude
    field, returning 0 with an error. *)
Definition lat_unparsed (row : list string) : Prop :=
  match row with
  | [_; _; _; f3; _] => ∃ e, ParseFloat (TrimSpace f3) = (F64.zero, Some e)
  | _ => False
  end.

End Program.
End Dedup.

(** ** The converter with lookup, colours and purposes ([part_000],
    second program) *)

Module Travel.

Record visit := {
  address : string;
  when : Time.t;
  purpose : string;
  lat : float64;
  lng : float64;
}.

Definition colors : list string :=
  [ "#a6cee3"; "#1f78b4"; "#b2df8a"; "#33a02c"; "#fb9a99"; "#e31a1c";
    "#fdbf6f"; "#ff7f00"; "#cab2d6"; "#6a3d9a"; "#ffff99"; "#b15928" ]%string.

(** The two package variables [yearToColor] and [nextColor]. *)
Record globals := {
  yearToColor : gmap Z string;
  nextColor : nat;
}.

Definition initial : globals := {| yearToColor := ∅; nextColor := 0 |}.

Definition colorForYear (t : Time.t) (g : globals) : outcome (string * globals) :=
  match yearToColor g !! Time.Year t with
  | Some c => Done (c, g)
  | None =>
      c ← deref (colors !! nextColor g);
      Done (c, {| yearToColor := <[Time.Year t := c]> (yearToColor g);
                  nextColor := (nextColor g + 1) mod length colors |})
  end.

(** A run's successive calls [colorForYear(t)], for [t] in [ts]. *)
Fixpoint calls (ts : list Time.t) (g : globals) : outcome (list string * globals) :=
  match ts with
  | [] => Done ([], g)
  | t :: ts' =>
      '(c, g1) ← colorForYear t g;
      '(cs, g2) ← calls ts' g1;
      Done (c :: cs, g2)
  end.

(** The years among [ts]. *)
Definition years (ts : list Time.t) : gset Z := list_to_set (Time.Year <$> ts).

(** A GeoJSON [Feature]: the [Point] coordinates and the four
    properties. *)
Record feature := {
  coordinates : list float64;
  marker_symbol : string;
  marker_color : string;
  date : string;
  name : string;
}.

Definition Less (a b : visit) : bool :=
  if negb (Time.Equal (when a) (when b)) then Time.Before (when a) (when b)
  else String.ltb (address a) (address b).

(** [Less] as a three-way comparison: the date, then the address. *)
Definition visit_compare (a b : visit) : comparison :=
  match Time.compare (when a) (when b) with
  | Eq => String.compare (address a) (address b)
  | c => c
  end.

Definition filterByPurpose (vs : list visit) (purpose' : string) : list visit :=
  fold_left (λ res v, if String.eqb (purpose v) purpose' then res ++ [v] else res)
            vs [].

(** What a run writes: the rows of the rewritten CSV file, and the
    GeoJSON documents with their names, in the order they are written. *)
Record files := {
  csv : list (list string);
  geojson : list (string * list feature);
}.

Section Program.
Context `{Platform}.

Definition sentinel (search : string) : float64 * float64 * string :=
  (F64.zero, F64.zero, search).

Definition lookup (search : string) : float64 * float64 * string :=
  let key := Getenv "MAPS_API_KEY" in
  let query := Values_Encode [("key", key); ("address", search)]%string in
  match http_Get ("https://maps.googleapis.com/maps/api/geocode/json?" +:+ query) with
  | None => sentinel search
  | Some resp =>
      if 299 <? StatusCode resp then sentinel search
      else
        match Body resp with
        | Unreadable => sentinel search
        | Readable bs =>
            match json_Unmarshal bs with
            | None => sentinel search
            | Some [] => sentinel search
            | Some (r :: _) => (Lat r, Lng r, Address r)
            end
        end
  end.

Definition visitFromStrings (fs : list string) : option visit :=
  match fs with
  | [f0; f1; f2; f3; f4] =>
      let v := {| when := fst (Time.Parse (TrimSpace f0));
                  purpose := TrimSpace f1;
                  address := TrimSpace f2;
                  lat := fst (ParseFloat (TrimSpace f3));
                  lng := fst (ParseFloat (TrimSpace f4)) |} in
      if F64.eqb (lat v) F64.zero && F64.eqb (lng v) F64.zero then
        let '(la, ln, ad) := lookup (address v) in
        Some {| when := when v; purpose := purpose v;
                address := ad; lat := la; lng := ln |}
      else Some v
  | _ => None
  end.

Definition strings (v : visit) : list string :=
  [ Time.Format (when v); purpose v; address v;
    F64.FormatFloat 4 (lat v); F64.FormatFloat 4 (lng v) ].

Definition MarshalJSON (v : visit) (g : globals) : outcome (feature * globals) :=
  '(c, g') ← colorForYear (when v) g;
  Done ({| coordinates := [truncate4 (lng v); truncate4 (lat v)];
           marker_symbol := purpose v;
           marker_color := c;
           date := Time.Format (when v);
           name := address v |}, g').

(** [json.MarshalIndent] over the visits, in order. *)
Fixpoint marshal_all (vs : list visit) (g : globals)
  : outcome (list feature * globals) :=
  match vs with
  | [] => Done ([], g)
  | v :: vs' =>
      '(f, g1) ← MarshalJSON v g;
      '(fs, g2) ← marshal_all vs' g1;
      Done (f :: fs, g2)
  end.

Definition saveVisits (visits : list visit) (fname : string) (g : globals)
  : outcome ((string * list feature) * globals) :=
  '(fs, g') ← marshal_all visits g;
  Done ((fname, fs), g').

(** The loop of [main] over the purposes, in the order [ps]. *)
Fixpoint save_purposes (visits : list visit) (fname : string)
    (ps : list string) (g : globals)
  : outcome (list (string * list feature) * globals) :=
  match ps with
  | [] => Done ([], g)
  | purpose' :: ps' =>
      let dir := filepath_Dir fname in
      let base := filepath_Base fname in
      let tname := filepath_Join dir (purpose' +:+ "-" +:+ base) in
      '(d, g1) ← saveVisits (filterByPurpose visits purpose') tname g;
      '(ds, g2) ← save_purposes visits fname ps' g1;
      Done (d :: ds, g2)
  end.

(** [main] on the records the CSV reader returns before its first
    error.  [visits] holds a nil for every row [visitFromStrings]
    rejects; [Less] and the two loops over [visits] dereference
    each element. *)
Definition main (file : string) (rows : list (list string)) : outcome files :=
  let visits := map visitFromStrings rows in
  visits ← mapM deref visits;
  let visits := sort_Sort Less visits in
  let purposes : gset string := list_to_set (map purpose visits) in
  let csv_rows := map strings visits in
  let fname := strings_Replace1 file ".csv" ".geojson" in
  '(d, g) ← saveVisits visits fname initial;
  '(ds, _) ← save_purposes visits fname (elements purposes) g;
  Done {| csv := csv_rows; geojson := d :: ds |}.

(** *** Vocabulary of the properties *)

(** The visits of the rows that have five fields, in order. *)
Definition parsed (rows : list (list string)) : list visit :=
  omap visitFromStrings rows.

(** The feature of [v] when its year has a colour in [g]. *)
Definition colored (g : globals) (v : visit) : feature :=
  {| coordinates := [truncate4 (lng v); truncate4 (lat v)];
     marker_symbol := purpose v;
     marker_color := default EmptyString (yearToColor g !! Time.Year (when v));
     date := Time.Format (when v);
     name := address v |}.

(** The names of the documents [main] writes for [file]. *)
Definition primary_name (file : string) : string :=
  strings_Replace1 file ".csv" ".geojson".

Definition partition_name (file purpose' : string) : string :=
  filepath_Join (filepath_Dir (primary_name file))
                (purpose' +:+ "-" +:+ filepath_Base (primary_name file)).

(** A row [visitFromStrings] reads without a default: five fields,
    those of the date, the purpose and the address without blanks
    around them, a date in the layout, and two numbers. *)
Definition valid_row (row : list string) : Prop :=
  match row with
  | [f0; f1; f2; f3; f4] =>
      TrimSpace f0 = f0 ∧ TrimSpace f1 = f1 ∧ TrimSpace f2 = f2 ∧
      snd (Time.Parse f0) = false ∧
      snd (ParseFloat (TrimSpace f3)) = None ∧
      F64.finite (fst (ParseFloat (TrimSpace f3))) = true ∧
      snd (ParseFloat (TrimSpace f4)) = None ∧
      F64.finite (fst (ParseFloat (TrimSpace f4))) = true
  | _ => False
  end.

(** Both coordinates of the row parse to 0, the case in which
    [visitFromStrings] makes a lookup. *)
Definition unresolved (row : list string) : bool :=
  match row with
  | [_; _; _; f3; f4] =>
      F64.eqb (fst (ParseFloat (TrimSpace f3))) F64.zero
      && F64.eqb (fst (ParseFloat (TrimSpace f4))) F64.zero
  | _ => false
  end.

(** The address the lookup requests for [search]. *)
Definition request (search : string) : string :=
  "https://maps.googleapis.com/maps/api/geocode/json?"
  +:+ Values_Encode [("key", Getenv "MAPS_API_KEY"); ("address", search)]%string.

(** The ways a lookup fails: no response, a status above 299, a body
    that cannot be read, a body that does not parse, no results. *)
Inductive failure : option response → Prop :=
| transport_error : failure None
| bad_status resp : 299 < StatusCode resp → failure (Some resp)
| unreadable_body resp : Body resp = Unreadable → failure (Some resp)
| unparseable_body resp bs :
    Body resp = Readable bs → json_Unmarshal bs = None → failure (Some resp)
| zero_results resp bs :
    Body resp = Readable bs → json_Unmarshal bs = Some [] → failure (Some resp).

End Program.
End Travel.

(** ** [resolve/resolve.go] *)

(** The types [visit] and [result], the palette, [colorForYear] and
    [visitList.Less] of this file have the text of the second program
    of [part_000]; they are shared with [Travel]. *)

Module Resolve.

Export Travel (visit, address, when, purpose, lat, lng, colors, globals,
               yearToColor, nextColor, initial, colorForYear, Less,
               feature, coordinates, marker_symbol, marker_color, date,
               name).

(** What the run writes: the rows of the rewritten CSV file, and the
    GeoJSON document with its name; the document is empty ([None]) when
    [json.MarshalIndent] fails. *)
Record files := {
  csv : list (list string);
  geojson : string * option (list feature);
}.

Section Program.
Context `{Platform}.

Definition loopkup (search : string) : float64 * float64 * string :=
  match http_Get ("http://maps.googleapis.com/maps/api/geocode/json?address="
                  +:+ QueryEscape search) with
  | None => (F64.zero, F64.zero, EmptyString)
  | Some resp =>
      match json_Decode (Body resp) with
      | None => (F64.zero, F64.zero, EmptyString)
      | Some [] => (F64.zero, F64.zero, EmptyString)
      | Some (r :: _) => (Lat r, Lng r, Address r)
      end
  end.

Definition visitFromStrings (fs : list string) : option visit :=
  match fs with
  | [f0; f1; f2; f3; f4] =>
      let v := {| Travel.when := fst (Time.Parse f0);
                  Travel.purpose := f1;
                  Travel.address := f2;
                  Travel.lat := fst (ParseFloat f3);
                  Travel.lng := fst (ParseFloat f4) |} in
      if F64.eqb (lat v) F64.zero && F64.eqb (lng v) F64.zero then
        let '(la, ln, ad) := loopkup (address v) in
        Some {| Travel.when := when v; Travel.purpose := purpose v;
                Travel.address := ad; Travel.lat := la; Travel.lng := ln |}
      else Some v
  | _ => None
  end.

Definition strings (v : visit) : list string :=
  [ Time.Format (when v); purpose v; address v;
    F64.FormatFloat 6 (lat v); F64.FormatFloat 6 (lng v) ].

(** The coordinates are the visit's own, unrounded. *)
Definition MarshalJSON (v : visit) (g : globals) : outcome (feature * globals) :=
  '(c, g') ← colorForYear (when v) g;
  Done ({| Travel.coordinates := [lng v; lat v];
           Travel.marker_symbol := purpose v;
           Travel.marker_color := c;
           Travel.date := Time.Format (when v);
           Travel.name := address v |}, g').

(** [encoding/json] refuses a NaN and an infinity. *)
Definition supported (x : float64) : bool :=
  match x with
  | S754_nan | S754_infinity _ => false
  | _ => true
  end.

Fixpoint marshal_all (vs : list visit) (g : globals)
  : outcome (option (list feature) * globals) :=
  match vs with
  | [] => Done (Some [], g)
  | v :: vs' =>
      '(f, g1) ← MarshalJSON v g;
      if forallb supported (coordinates f) then
        '(fs, g2) ← marshal_all vs' g1;
        Done (option_map (cons f) fs, g2)
      else Done (None, g1)
  end.

Definition main (file : string) (rows : list (list string)) : outcome files :=
  let visits := map visitFromStrings rows in
  visits ← mapM deref visits;
  let visits := sort_Sort Less visits in
  let csv_rows := map strings visits in
  '(bs, _) ← marshal_all visits initial;
  let fname := strings_Replace1 file ".csv" ".geojson" in
  Done {| csv := csv_rows; geojson := (fname, bs) |}.

(** *** Vocabulary of the properties *)

(** The address [loopkup] requests for [search]. *)
Definition request (search : string) : string :=
  "http://maps.googleapis.com/maps/api/geocode/json?address="
  +:+ QueryEscape search.

(** The ways a lookup fails here: no response, a body that does
    not decode, no results. *)
Inductive failure : option response → Prop :=
| transport_error : failure None
| undecodable_body resp : json_Decode (Body resp) = None → failure (Some resp)
| zero_results resp : json_Decode (Body resp) = Some [] → failure (Some resp).

End Program.
End Resolve.

(** ** A platform to run the programs on

    Enough of Go's library for rows of plain decimal numbers and ASCII
    text; the network is the argument [net], the JSON decoder the
    argument [dec]. *)

Module Sample.

Definition is_space (c : ascii) : bool :=
  let n := nat_of_ascii c in
  ((9 <=? n) && (n <=? 13) || (n =? 32))%nat.

Fixpoint trim_left (l : list ascii) : list ascii :=
  match l with
  | c :: l' => if is_space c then trim_left l' else l
  | [] => []
  end.

Definition trim (s : string) : string :=
  string_of_list_ascii
    (rev (trim_left (rev (trim_left (list_ascii_of_string s))))).

Fixpoint digits_value (l : list ascii) (acc : Z) : option Z :=
  match l with
  | [] => Some acc
  | c :: l' => if is_digit c then digits_value l' (acc * 10 + digit_val c) else None
  end.

Fixpoint split_dot (l : list ascii) : list ascii * list ascii :=
  match l with
  | [] => ([], [])
  | c :: l' =>
      if Ascii.eqb c "." then ([], l')
      else let '(a, b) := split_dot l' in (c :: a, b)
  end.

(** Numerals [[+-]digits[.digits]] only. *)
Definition parse_decimal (s : string) : float64 * option NumError :=
  let l := list_ascii_of_string s in
  let '(neg, l) :=
    match l with
    | c :: r => if Ascii.eqb c "-" then (true, r)
                else if Ascii.eqb c "+" then (false, r) else (false, l)
    | [] => (false, l)
    end in
  let '(ip, fp) := split_dot l in
  match ip ++ fp with
  | [] => (F64.zero, Some ErrSyntax)
  | ds =>
      match digits_value ds 0 with
      | Some 0 => (S754_zero neg, None)
      | Some n => (F64.of_decimal (if neg then - n else n) (length fp), None)
      | None => (F64.zero, Some ErrSyntax)
      end
  end.

Section InsertionSort.
Context {A : Type} (less : A → A → bool).

Fixpoint insert (x : A) (l : list A) : list A :=
  match l with
  | [] => [x]
  | y :: l' => if less x y then x :: l else y :: insert x l'
  end.

Definition insertion_sort (l : list A) : list A :=
  fold_left (λ acc x, insert x acc) l [].
End InsertionSort.

Fixpoint replace1 (fuel : nat) (s old new : string) : string :=
  match fuel with
  | O => s
  | S f =>
      if String.prefix old s
      then new +:+ String.substring (String.length old) (String.length s) s
      else match s with
           | EmptyString => EmptyString
           | String c s' => String c (replace1 f s' old new)
           end
  end.

Definition platform
    (net : string → option response)
    (dec : string → option (list geo_result)) : Platform :=
  {| TrimSpace := trim;
     ParseFloat := parse_decimal;
     int_unrepresentable := λ _, F64.int_min;
     Getenv := λ _, EmptyString;
     Values_Encode := λ kv,
       String.concat "&" (map (λ p, fst p +:+ "=" +:+ snd p) kv);
     QueryEscape := λ s, s;
     http_Get := net;
     json_Unmarshal := dec;
     json_Decode := λ b, match b with Unreadable => None | Readable bs => dec bs end;
     sort_Sort := λ A less l, insertion_sort less l;
     slices_SortFunc := λ A cmp l, insertion_sort (λ a b, cmp a b <? 0) l;
     strings_Replace1 := λ s old new, replace1 (S (String.length s)) s old new;
     filepath_Dir := λ _, ".";
     filepath_Base := λ s, s;
     filepath_Join := λ d b, if String.eqb d "." then b else d +:+ "/" +:+ b |}.

(** No network at all: every request fails. *)
Definition offline : Platform := platform (λ _, None) (λ _, None).

(** A geocoder that knows one address, and answers anything else
    with an empty list of results; every response has the status
    [status]. *)
Definition main_st : geo_result :=
  {| Address := "123 Main St, Springfield";
     Lat := F64.of_decimal 397817 4; Lng := F64.of_decimal (-896501) 4 |}.

Definition geocoder (status : Z) : Platform :=
  platform
    (λ url, Some {| StatusCode := status; Body := Readable url |})
    (λ bs, if String.eqb bs (@Travel.request offline "123 Main St")
           then Some [main_st] else Some []).

(** Rows to run the programs on. *)
Definition row_main_st : list string :=
  ["2020-01-01"; "museum"; "123 Main St"; "40.0000"; "-75.0000"]%string.
Definition row_elm_st : list string :=
  ["2020-06-15"; "work"; "9 Elm St"; "40.0000"; "-120.5000"]%string.
Definition row_north : list string :=
  ["2019-03-02"; "work"; "North Cape"; "north"; "25.7800"]%string.
Definition row_blank : list string :=
  ["2021-07-09"; "museum"; "Louvre"; "n/a"; "2.3376"]%string.
Definition row_short : list string :=
  ["2020-01-01"; "museum"; "123 Main St"; "40.0000"]%string.

End Sample.



(** ** More of the programs: the rest of [sort.Interface], and
    vocabulary of further properties *)

Module VisitList.

(** [l[i]] for an [int] index: out of range it panics. *)
Definition index {A} (l : list A) (i : Z) : outcome A :=
  if i <? 0 then Panic else deref (l !! Z.to_nat i).

(** [visitList.Len]. *)
Definition Len (l : list (option Travel.visit)) : Z := Z.of_nat (length l).

(** [visitList.Swap]: [l[a], l[b] = l[b], l[a]].  Both elements are
    read, then [l[a]] and [l[b]] are assigned in this order. *)
Definition Swap (l : list (option Travel.visit)) (a b : Z)
  : outcome (list (option Travel.visit)) :=
  y ← index l b;
  x ← index l a;
  Done (<[Z.to_nat b := x]> (<[Z.to_nat a := y]> l)).

(** [visitList.Less] on indices: the two pointers are read and
    dereferenced. *)
Definition Less (l : list (option Travel.visit)) (a b : Z) : outcome bool :=
  pa ← index l a; va ← deref pa;
  pb ← index l b; vb ← deref pb;
  Done (Travel.Less va vb).

End VisitList.

Module Vocabulary.

(** The package variables a run can reach: the cursor is inside the
    palette and every colour assigned is one of the palette. *)
Definition palette_state (g : Travel.globals) : Prop :=
  (Travel.nextColor g < length Travel.colors)%nat
  ∧ ∀ y c, Travel.yearToColor g !! y = Some c → c ∈ Travel.colors.

(** The latitude of a visit as the deduplication writes it. *)
Definition lat4 (v : Dedup.visit) : string := F64.FormatFloat 4 (Dedup.lat v).

Section Program.
Context `{Platform}.

(** The visits [resolve.go] makes of the rows that have five fields. *)
Definition resolve_parsed (rows : list (list string)) : list Travel.visit :=
  omap Resolve.visitFromStrings rows.

(** Both coordinates of the row parse to 0 in [resolve.go], which does
    not trim the fields. *)
Definition resolve_unresolved (row : list string) : bool :=
  match row with
  | [_; _; _; f3; f4] =>
      F64.eqb (fst (ParseFloat f3)) F64.zero
      && F64.eqb (fst (ParseFloat f4)) F64.zero
  | _ => false
  end.

(** [encoding/json] can write the coordinates of the visit. *)
Definition writable (v : Travel.visit) : bool :=
  Resolve.supported (Travel.lng v) && Resolve.supported (Travel.lat v).

End Program.
End Vocabulary.

(** A platform that reads, besides the plain decimal numbers of
    [Sample], the texts [NaN] and [Inf] as [strconv.ParseFloat] does. *)
Module Inputs.

Definition parse_special (s : string) : float64 * option NumError :=
  if String.eqb s "NaN" then (S754_nan, None)
  else if String.eqb s "Inf" then (S754_infinity false, None)
  else if String.eqb s "-Inf" then (S754_infinity true, None)
  else Sample.parse_decimal s.

Definition special : Platform :=
  {| TrimSpace := Sample.trim;
     ParseFloat := parse_special;
     int_unrepresentable := @int_unrepresentable Sample.offline;
     Getenv := @Getenv Sample.offline;
     Values_Encode := @Values_Encode Sample.offline;
     QueryEscape := @QueryEscape Sample.offline;
     http_Get := @http_Get Sample.offline;
     json_Unmarshal := @json_Unmarshal Sample.offline;
     json_Decode := @json_Decode Sample.offline;
     sort_Sort := @sort_Sort Sample.offline;
     slices_SortFunc := @slices_SortFunc Sample.offline;
     strings_Replace1 := @strings_Replace1 Sample.offline;
     filepath_Dir := @filepath_Dir Sample.offline;
     filepath_Base := @filepath_Base Sample.offline;
     filepath_Join := @filepath_Join Sample.offline |}.

Definition row_nan : list string :=
  ["2021-07-09"; "museum"; "Louvre"; "NaN"; "2.3376"]%string.

End Inputs.


(** * Properties *)

(** ** Loops, strings and outcomes *)

Lemma foldM_app {A S} (f : S → A → outcome S) s l1 l2 :
  foldM f s (l1 ++ l2) = s' ← foldM f s l1; foldM f s' l2.
Proof.
  revert s. induction l1 as [|a l1 IH]; intros s; simpl; [reflexivity|].
  destruct (f s a) as [s1|]; simpl; [apply IH|reflexivity].
Qed.

Lemma mapM_deref_Done {A} (l : list (option A)) (vs : list A) :
  mapM deref l = Done vs ↔ l = Some <$> vs.
Proof.
  revert vs. induction l as [|o l IH]; intros vs; simpl.
  - split.
    + intros [= <-]. reflexivity.
    + destruct vs; [reflexivity|discriminate].
  - destruct o as [a|]; simpl.
    + destruct (mapM deref l) as [k|] eqn:Hk; simpl.
      * split.
        -- intros [= <-]. simpl. f_equal. apply IH. reflexivity.
        -- destruct vs as [|b vs]; [discriminate|]. intros [= <- Hl].
           apply IH in Hl. injection Hl as <-. reflexivity.
      * split; [discriminate|].
        destruct vs as [|b vs]; [discriminate|]. intros [= <- Hl].
        apply IH in Hl. discriminate.
    + split; [discriminate|]. destruct vs; discriminate.
Qed.

Lemma mapM_deref_Panic {A} (l : list (option A)) :
  mapM deref l = Panic ↔ None ∈ l.
Proof.
  induction l as [|o l IH]; simpl.
  - split; [discriminate|]. intros Hin. inversion Hin.
  - destruct o as [a|]; simpl.
    + destruct (mapM deref l) as [k|] eqn:Hk; simpl.
      * split; [discriminate|]. intros Hin.
        apply elem_of_cons in Hin as [Heq|Hin]; [discriminate|].
        apply IH in Hin. discriminate.
      * split; [|reflexivity]. intros _. apply elem_of_cons. right.
        apply IH. reflexivity.
    + split; [|reflexivity]. intros _. apply elem_of_cons. left. reflexivity.
Qed.

Lemma string_length_app (a b : string) :
  String.length (a +:+ b) = (String.length a + String.length b)%nat.
Proof. induction a as [|c a IH]; simpl; [reflexivity|]. rewrite IH. reflexivity. Qed.

Lemma string_app_inj_length (a b x y : string) :
  String.length a = String.length b → a +:+ x = b +:+ y → a = b ∧ x = y.
Proof.
  revert b. induction a as [|c a IH]; intros [|d b] Hlen Heq; simpl in *;
    try discriminate.
  - split; [reflexivity|exact Heq].
  - injection Heq as -> Heq. injection Hlen as Hlen.
    destruct (IH b Hlen Heq) as [-> ->]. split; reflexivity.
Qed.

(** A string written twice around a comma determines the string. *)
Lemma twice_inj (a b : string) :
  a +:+ "," +:+ a = b +:+ "," +:+ b → a = b.
Proof.
  intros Heq.
  assert (Hlen : String.length a = String.length b).
  { apply (f_equal String.length) in Heq.
    rewrite !string_length_app in Heq. simpl in Heq. lia. }
  apply (string_app_inj_length _ _ _ _ Hlen Heq).
Qed.

(** ** Orders: dates, byte strings, sorted lists *)

Lemma ascii_compare_lt_trans (a b c : ascii) :
  Ascii.compare a b = Lt → Ascii.compare b c = Lt → Ascii.compare a c = Lt.
Proof.
  unfold Ascii.compare. rewrite !N.compare_lt_iff. apply N.lt_trans.
Qed.

Lemma string_compare_lt_trans (s1 s2 s3 : string) :
  String.compare s1 s2 = Lt → String.compare s2 s3 = Lt → String.compare s1 s3 = Lt.
Proof.
  revert s2 s3. induction s1 as [|a s1 IH]; intros [|b s2] [|c s3]; simpl;
    try discriminate; try reflexivity.
  destruct (Ascii.compare a b) eqn:Hab; try discriminate;
    destruct (Ascii.compare b c) eqn:Hbc; try discriminate; intros H12 H23.
  - apply Ascii.compare_eq_iff in Hab, Hbc. subst.
    assert (Hcc : Ascii.compare c c = Eq).
    { unfold Ascii.compare. apply N.compare_refl. }
    rewrite Hcc. eapply IH; eassumption.
  - apply Ascii.compare_eq_iff in Hab. subst. rewrite Hbc. reflexivity.
  - apply Ascii.compare_eq_iff in Hbc. subst. rewrite Hab. reflexivity.
  - rewrite (ascii_compare_lt_trans _ _ _ Hab Hbc). reflexivity.
Qed.

Lemma string_compare_refl (s : string) : String.compare s s = Eq.
Proof.
  induction s as [|a s IH]; simpl; [reflexivity|].
  unfold Ascii.compare. rewrite N.compare_refl. exact IH.
Qed.

Lemma time_compare_eq (a b : Time.t) : Time.compare a b = Eq ↔ a = b.
Proof.
  destruct a as [y1 m1 d1], b as [y2 m2 d2]. unfold Time.compare. simpl. split.
  - destruct (y1 ?= y2) eqn:Hy; try discriminate.
    destruct (m1 ?= m2) eqn:Hm; try discriminate. intros Hd.
    apply Z.compare_eq_iff in Hy, Hm, Hd. congruence.
  - intros [= -> -> ->]. rewrite !Z.compare_refl. reflexivity.
Qed.

Lemma time_compare_antisym (a b : Time.t) :
  Time.compare b a = CompOpp (Time.compare a b).
Proof.
  destruct a as [y1 m1 d1], b as [y2 m2 d2]. unfold Time.compare. simpl.
  rewrite (Z.compare_antisym y1 y2), (Z.compare_antisym m1 m2),
    (Z.compare_antisym d1 d2).
  destruct (y1 ?= y2), (m1 ?= m2), (d1 ?= d2); reflexivity.
Qed.

Lemma time_compare_lt (a b : Time.t) :
  Time.compare a b = Lt ↔
  Time.year a < Time.year b
  ∨ Time.year a = Time.year b
    ∧ (Time.month a < Time.month b
       ∨ Time.month a = Time.month b ∧ Time.day a < Time.day b).
Proof.
  destruct a as [y1 m1 d1], b as [y2 m2 d2]. unfold Time.compare. simpl.
  destruct (Z.compare_spec y1 y2); destruct (Z.compare_spec m1 m2);
    destruct (Z.compare_spec d1 d2); split; intros Hx;
    try discriminate; try reflexivity; lia.
Qed.

Lemma time_compare_lt_trans (a b c : Time.t) :
  Time.compare a b = Lt → Time.compare b c = Lt → Time.compare a c = Lt.
Proof. rewrite !time_compare_lt. lia. Qed.

Lemma comparison_strict_weak {A} (cmp : A → A → comparison) :
  comparison_order cmp → strict_weak (λ a b, is_Lt (cmp a b)).
Proof.
  intros [Hrefl Hanti Htrans Heq]. split.
  - intros a. rewrite Hrefl. reflexivity.
  - intros a b c Hab Hbc.
    destruct (cmp a b) eqn:H1; try discriminate.
    destruct (cmp b c) eqn:H2; try discriminate.
    rewrite (Htrans _ _ _ H1 H2). reflexivity.
  - intros a b c Hab Hba Hbc Hcb.
    assert (Eab : cmp a b = Eq).
    { rewrite (Hanti a b) in Hba. destruct (cmp a b); simpl in *; congruence. }
    assert (Ebc : cmp b c = Eq).
    { rewrite (Hanti b c) in Hcb. destruct (cmp b c); simpl in *; congruence. }
    rewrite (Hanti a c), (Heq a b c Eab), Ebc. split; reflexivity.
Qed.

Lemma ascending_lookup {A} (less : A → A → bool) (l : list A) :
  ascending less l →
  ∀ i j a b, (i < j)%nat → l !! i = Some a → l !! j = Some b → less b a = false.
Proof.
  induction 1 as [|x l Hs IH Hall]; intros i j a b Hij Hi Hj.
  - discriminate.
  - destruct j as [|j]; [lia|]. destruct i as [|i]; simpl in *.
    + injection Hi as <-. rewrite List.Forall_forall in Hall.
      apply Hall. apply list_elem_of_In. eapply list_elem_of_lookup_2. exact Hj.
    + apply (IH i j); [lia|assumption..].
Qed.

(** Insertion sort, the sorting routine of the sample platform. *)
Section InsertionSort.
Context {A : Type} (less : A → A → bool).

Lemma insert_perm x l : Permutation (x :: l) (Sample.insert less x l).
Proof.
  induction l as [|y l IH]; simpl; [reflexivity|].
  destruct (less x y); [reflexivity|].
  rewrite perm_swap. constructor. exact IH.
Qed.

Lemma insertion_sort_perm_acc l acc :
  Permutation (acc ++ l) (fold_left (λ acc x, Sample.insert less x acc) l acc).
Proof.
  revert acc. induction l as [|x l IH]; intros acc; simpl.
  - rewrite app_nil_r. reflexivity.
  - rewrite <- IH, <- insert_perm.
    rewrite (Permutation_middle acc l x). reflexivity.
Qed.

Lemma insertion_sort_perm l : Permutation l (Sample.insertion_sort less l).
Proof. apply (insertion_sort_perm_acc l []). Qed.

Hypothesis Hsw : strict_weak less.

Lemma insert_ascending x l :
  ascending less l → ascending less (Sample.insert less x l).
Proof.
  unfold ascending. induction 1 as [|y l Hs IH Hall]; simpl.
  - repeat constructor.
  - destruct (less x y) eqn:Hxy.
    + constructor; [constructor; assumption|]. constructor.
      * destruct (less y x) eqn:Hyx; [|reflexivity].
        pose proof (sw_trans _ Hsw _ _ _ Hxy Hyx) as Hxx.
        rewrite (sw_irrefl _ Hsw) in Hxx. discriminate.
      * rewrite List.Forall_forall in Hall |- *. intros z Hz.
        destruct (less z x) eqn:Hzx; [|reflexivity].
        rewrite <- (Hall z Hz). symmetry. eapply sw_trans; eauto.
    + constructor; [exact IH|].
      rewrite List.Forall_forall in Hall |- *. intros z Hz.
      apply (Permutation_in _ (Permutation_sym (insert_perm x l))) in Hz.
      destruct Hz as [<-|Hz]; [exact Hxy|apply Hall, Hz].
Qed.

Lemma insertion_sort_ascending l : ascending less (Sample.insertion_sort less l).
Proof.
  unfold Sample.insertion_sort.
  assert (Hacc : ∀ acc, ascending less acc →
            ascending less (fold_left (λ acc x, Sample.insert less x acc) l acc)).
  { induction l as [|x l IH]; intros acc Ha; simpl; [exact Ha|].
    apply IH, insert_ascending, Ha. }
  apply Hacc. constructor.
Qed.

End InsertionSort.

Global Instance sample_sorts net dec : Sorts (Sample.platform net dec).
Proof.
  split; simpl.
  - intros A less l. apply insertion_sort_perm.
  - intros A less l Hsw. apply insertion_sort_ascending, Hsw.
  - intros A cmp l. apply insertion_sort_perm.
  - intros A cmp l Hsw. apply insertion_sort_ascending, Hsw.
Qed.

(** ** Dates and digits *)

Lemma is_digit_val (c : ascii) :
  is_digit c = true → 0 ≤ digit_val c ≤ 9 ∧ digit (digit_val c) = c.
Proof.
  unfold is_digit, digit_val, digit. intros Hd.
  apply andb_true_iff in Hd as [Hlo Hhi]. apply Z.leb_le in Hlo, Hhi.
  split; [lia|].
  rewrite Z.mod_small by lia.
  replace (48 + (Z.of_nat (nat_of_ascii c) - 48)) with (Z.of_nat (nat_of_ascii c)) by lia.
  rewrite Nat2Z.id. apply ascii_nat_embedding.
Qed.

Lemma digit_shift (q d : Z) : 0 ≤ d ≤ 9 → digit (q * 10 + d) = digit d.
Proof.
  intros Hd. unfold digit. f_equal. f_equal. f_equal.
  rewrite Z.add_comm, Z.mod_add by lia. reflexivity.
Qed.

Lemma div_shift (q d : Z) : 0 ≤ d ≤ 9 → (q * 10 + d) / 10 = q.
Proof.
  intros Hd. rewrite Z.add_comm, Z.div_add by lia.
  rewrite Z.div_small by lia. reflexivity.
Qed.

Lemma fixed_digits_2 (a b : ascii) :
  is_digit a = true → is_digit b = true →
  fixed_digits 2 (Time.num2 a b) = String a (String b EmptyString).
Proof.
  intros Ha Hb. apply is_digit_val in Ha as [Ha Ha'], Hb as [Hb Hb'].
  unfold Time.num2. cbn [fixed_digits].
  rewrite digit_shift, div_shift by lia. rewrite Ha', Hb'. reflexivity.
Qed.

Lemma fixed_digits_4 (a b c d : ascii) :
  is_digit a = true → is_digit b = true → is_digit c = true → is_digit d = true →
  fixed_digits 4 (Time.num2 a b * 100 + Time.num2 c d)
  = String a (String b (String c (String d EmptyString))).
Proof.
  intros Ha Hb Hc Hd.
  apply is_digit_val in Ha as [Ha Ha'], Hb as [Hb Hb'], Hc as [Hc Hc'], Hd as [Hd Hd'].
  unfold Time.num2.
  replace ((digit_val a * 10 + digit_val b) * 100 + (digit_val c * 10 + digit_val d))
    with (((digit_val a * 10 + digit_val b) * 10 + digit_val c) * 10 + digit_val d) by lia.
  cbn [fixed_digits].
  rewrite (digit_shift _ (digit_val d)), (div_shift _ (digit_val d)) by lia.
  rewrite (digit_shift _ (digit_val c)), (div_shift _ (digit_val c)) by lia.
  rewrite (digit_shift _ (digit_val b)), (div_shift _ (digit_val b)) by lia.
  rewrite Ha', Hb', Hc', Hd'. reflexivity.
Qed.

(** A string [time.Parse] accepts is the one [Format] writes for the
    time parsed. *)
Lemma Parse_Format (s : string) (t : Time.t) :
  Time.Parse s = (t, false) → Time.Format t = s.
Proof.
  unfold Time.Parse. intros Hp.
  rewrite <- (string_of_list_ascii_of_string s).
  destruct (list_ascii_of_string s)
    as [|y1 [|y2 [|y3 [|y4 [|s1 [|m1 [|m2 [|s2 [|d1 [|d2 [|x r]]]]]]]]]]];
    try discriminate.
  destruct (forallb _ _ && _ && _ && _ && _ && _ && _) eqn:Hc; [|discriminate].
  injection Hp as <-.
  cbn [forallb] in Hc. rewrite !andb_true_iff in Hc.
  decompose [and] Hc; clear Hc.
  repeat match goal with
         | Hq : Ascii.eqb _ _ = true |- _ => apply Ascii.eqb_eq in Hq; subst
         end.
  unfold Time.Format, Time.appendInt. cbn [Time.year Time.month Time.day].
  assert (Hy : 0 ≤ Time.num2 y1 y2 * 100 + Time.num2 y3 y4 < 10000).
  { unfold Time.num2.
    repeat match goal with
           | Hd : is_digit _ = true |- _ => apply is_digit_val in Hd as [Hd _]
           end. lia. }
  rewrite Z.abs_eq by lia.
  destruct (_ <? 0) eqn:Hneg; [apply Z.ltb_lt in Hneg; lia|].
  destruct (_ <? 10 ^ _) eqn:Hlt; [|apply Z.ltb_ge in Hlt; simpl in Hlt; lia].
  rewrite fixed_digits_4, !fixed_digits_2 by assumption. reflexivity.
Qed.

Example Parse_Format_leap : Time.Format (fst (Time.Parse "2024-02-29")) = "2024-02-29"%string.
Proof. reflexivity. Qed.

(** ** Decimal notation *)

Lemma digit_is_digit (n : Z) : is_digit (digit n) = true.
Proof.
  unfold is_digit, digit.
  pose proof (Z.mod_pos_bound n 10 ltac:(lia)) as Hm.
  rewrite nat_ascii_embedding by lia. rewrite Z2Nat.id by lia.
  apply andb_true_iff. split; apply Z.leb_le; lia.
Qed.

Lemma digit_val_digit (n : Z) : digit_val (digit n) = n mod 10.
Proof.
  unfold digit_val, digit.
  pose proof (Z.mod_pos_bound n 10 ltac:(lia)) as Hm.
  rewrite nat_ascii_embedding by lia. rewrite Z2Nat.id by lia. lia.
Qed.

Lemma list_ascii_app (a b : string) :
  list_ascii_of_string (a +:+ b) = list_ascii_of_string a ++ list_ascii_of_string b.
Proof. induction a as [|c a IH]; simpl; [reflexivity|]. rewrite IH. reflexivity. Qed.

Lemma decimal_value_snoc (a : string) (c : ascii) :
  decimal_value (a +:+ String c EmptyString) = decimal_value a * 10 + digit_val c.
Proof.
  unfold decimal_value. rewrite list_ascii_app, fold_left_app. reflexivity.
Qed.

Lemma all_digits_snoc (a : string) (c : ascii) :
  all_digits (a +:+ String c EmptyString) = all_digits a && is_digit c.
Proof.
  unfold all_digits. rewrite list_ascii_app, forallb_app. simpl.
  rewrite andb_true_r. reflexivity.
Qed.

(** [fixed_digits k n] is [k] digits that read [n mod 10^k]. *)
Lemma fixed_digits_reads (k : nat) (n : Z) :
  0 ≤ n →
  String.length (fixed_digits k n) = k
  ∧ all_digits (fixed_digits k n) = true
  ∧ decimal_value (fixed_digits k n) = n mod 10 ^ Z.of_nat k.
Proof.
  revert n. induction k as [|k IH]; intros n Hn.
  - simpl. rewrite Z.mod_1_r. auto.
  - cbn [fixed_digits].
    destruct (IH (n / 10) ltac:(apply Z.div_pos; lia)) as (Hlen & Hall & Hval).
    rewrite string_length_app, all_digits_snoc, decimal_value_snoc.
    rewrite Hlen, Hall, Hval, digit_is_digit, digit_val_digit.
    split; [simpl; lia|]. split; [reflexivity|].
    rewrite Nat2Z.inj_succ, Z.pow_succ_r by lia.
    assert (Hp : 0 < 10 ^ Z.of_nat k) by (apply Z.pow_pos_nonneg; lia).
    rewrite Z.rem_mul_r by lia. lia.
Qed.

Lemma nat_digits_reads (fuel : nat) (n : Z) :
  0 ≤ n < 10 ^ Z.of_nat fuel →
  all_digits (nat_digits fuel n) = true
  ∧ decimal_value (nat_digits fuel n) = n
  ∧ (fuel ≠ O → nat_digits fuel n ≠ EmptyString).
Proof.
  revert n. induction fuel as [|f IH]; intros n Hn.
  - simpl in Hn. assert (n = 0) by lia. subst. simpl. auto.
  - cbn [nat_digits]. destruct (n <? 10) eqn:Hlt.
    + apply Z.ltb_lt in Hlt. unfold all_digits, decimal_value. simpl.
      rewrite digit_is_digit, digit_val_digit, Z.mod_small by lia.
      split; [reflexivity|]. split; [reflexivity|discriminate].
    + apply Z.ltb_ge in Hlt.
      rewrite Nat2Z.inj_succ, Z.pow_succ_r in Hn by lia.
      destruct (IH (n / 10)) as (Hall & Hval & _).
      { split; [apply Z.div_pos; lia|].
        apply Z.div_lt_upper_bound; lia. }
      rewrite all_digits_snoc, decimal_value_snoc, Hall, Hval.
      rewrite digit_is_digit, digit_val_digit.
      split; [reflexivity|]. split.
      * pose proof (Z.div_mod n 10 ltac:(lia)). lia.
      * intros _. destruct (nat_digits f (n / 10)); discriminate.
Qed.

Lemma itoa_reads (n : Z) :
  0 ≤ n →
  all_digits (itoa n) = true ∧ decimal_value (itoa n) = n ∧ itoa n ≠ EmptyString.
Proof.
  intros Hn. unfold itoa.
  destruct (nat_digits_reads (S (Z.to_nat (Z.log2 n))) n) as (Ha & Hv & Hne).
  - split; [exact Hn|].
    destruct (Z.eq_dec n 0) as [->|Hnz]; [simpl; lia|].
    pose proof (Z.log2_nonneg n) as Hl.
    rewrite Nat2Z.inj_succ, Z2Nat.id by lia.
    pose proof (proj2 (Z.log2_spec n ltac:(lia))) as Hlog.
    eapply Z.lt_le_trans; [exact Hlog|].
    apply Z.pow_le_mono_l. lia.
  - split; [exact Ha|]. split; [exact Hv|]. apply Hne. discriminate.
Qed.

(** [fixed p n] is the decimal notation of [n / 10^p]. *)
Lemma fixed_denotes (p : nat) (n : Z) (sg : bool) :
  0 ≤ n → p ≠ O →
  denotes p (F64.sign_string sg +:+ F64.fixed p n) (if sg then - n else n).
Proof.
  intros Hn Hp. destruct p as [|p]; [contradiction|].
  assert (Hten : 0 < 10 ^ Z.of_nat (S p)) by (apply Z.pow_pos_nonneg; lia).
  destruct (itoa_reads (n / 10 ^ Z.of_nat (S p)) ltac:(apply Z.div_pos; lia))
    as (Hia & Hiv & Hine).
  destruct (fixed_digits_reads (S p) n Hn) as (Hfl & Hfa & Hfv).
  exists sg, (itoa (n / 10 ^ Z.of_nat (S p))), (fixed_digits (S p) n).
  split; [destruct sg; reflexivity|].
  repeat (split; [assumption|]).
  rewrite Hiv, Hfv. pose proof (Z.div_mod n (10 ^ Z.of_nat (S p)) ltac:(lia)).
  destruct sg; lia.
Qed.

Example fixed_denotes_run : denotes 4 "-75.0312" (-750312).
Proof. exists true, "75"%string, "0312"%string. repeat split; discriminate. Qed.

Lemma digit_not_minus (c : ascii) : is_digit c = true → c ≠ "-"%char.
Proof. intros Hc ->. vm_compute in Hc. discriminate. Qed.

Lemma digit_not_point (c : ascii) : is_digit c = true → c ≠ "."%char.
Proof. intros Hc ->. vm_compute in Hc. discriminate. Qed.

(** A text is read in one way only: the digits before the point end at
    the point. *)
Lemma point_split (ip1 ip2 fp1 fp2 : string) :
  all_digits ip1 = true → all_digits ip2 = true →
  ip1 +:+ "." +:+ fp1 = ip2 +:+ "." +:+ fp2 → ip1 = ip2 ∧ fp1 = fp2.
Proof.
  revert ip2. induction ip1 as [|c ip1 IH]; intros [|d ip2] H1 H2 Heq.
  - cbn in Heq. injection Heq as Heq. subst. auto.
  - cbn in Heq. injection Heq as Hd _. subst d. unfold all_digits in H2. cbn in H2.
    apply andb_true_iff in H2 as [H2 _]. vm_compute in H2. discriminate.
  - cbn in Heq. injection Heq as Hc _. subst c. unfold all_digits in H1. cbn in H1.
    apply andb_true_iff in H1 as [H1 _]. vm_compute in H1. discriminate.
  - cbn in Heq. injection Heq as Hc Heq. subst d.
    unfold all_digits in H1, H2. cbn in H1, H2.
    apply andb_true_iff in H1 as [_ H1]. apply andb_true_iff in H2 as [_ H2].
    destruct (IH ip2 H1 H2 Heq) as [-> ->]. auto.
Qed.

Lemma denotes_unique (p : nat) (s : string) (n n' : Z) :
  denotes p s n → denotes p s n' → n = n'.
Proof.
  intros (sg & ip & fp & Hs & Hi & Hne & Hf & _ & ->)
         (sg' & ip' & fp' & Hs' & Hi' & Hne' & Hf' & _ & ->).
  assert (Hfirst : ∀ ip0 : string, all_digits ip0 = true → ip0 ≠ EmptyString →
            ∃ c r, ip0 = String c r ∧ c ≠ "-"%char).
  { intros [|c r] Hd Hn; [contradiction|]. exists c, r. split; [reflexivity|].
    apply digit_not_minus. unfold all_digits in Hd. cbn in Hd.
    apply andb_true_iff in Hd. tauto. }
  destruct (Hfirst ip Hi Hne) as (c & r & Hc & Hcm).
  destruct (Hfirst ip' Hi' Hne') as (c' & r' & Hc' & Hcm').
  rewrite Hs in Hs'.
  assert (Hsg : sg = sg').
  { destruct sg, sg'; try reflexivity; exfalso; rewrite Hc, Hc' in Hs';
      cbn in Hs'; injection Hs' as Hx _; congruence. }
  subst sg'.
  assert (Hrest : ip +:+ "." +:+ fp = ip' +:+ "." +:+ fp').
  { destruct sg; cbn in Hs'; [injection Hs' as Hs'|]; exact Hs'. }
  destruct (point_split _ _ _ _ Hi Hi' Hrest) as [-> ->]. reflexivity.
Qed.

(** The sign counts: 75.0000 is not an accurate text of -75. *)
Example accurate_sign :
  F64.accurate 4 (F64.of_int (-75)) "-75.0000"
  ∧ ¬ F64.accurate 4 (F64.of_int (-75)) "75.0000"
  ∧ ¬ F64.accurate 4 (F64.of_int 75) "-75.0000".
Proof.
  split; [|split].
  - exists (-750000). split; [|vm_compute; discriminate].
    exists true, "75"%string, "0000"%string. repeat split; discriminate.
  - intros (n & Hn & Hw).
    assert (Hd : denotes 4 "75.0000" 750000).
    { exists false, "75"%string, "0000"%string. repeat split; discriminate. }
    rewrite (denotes_unique _ _ _ _ Hn Hd) in Hw. vm_compute in Hw. apply Hw. reflexivity.
  - intros (n & Hn & Hw).
    assert (Hd : denotes 4 "-75.0000" (-750000)).
    { exists true, "75"%string, "0000"%string. repeat split; discriminate. }
    rewrite (denotes_unique _ _ _ _ Hn Hd) in Hw. vm_compute in Hw. apply Hw. reflexivity.
Qed.


(** ** The colour of a year *)

Module ColorFacts.
Import Travel.
#[local] Arguments Nat.modulo : simpl never.

Lemma calls_app ts1 ts2 g :
  calls (ts1 ++ ts2) g =
  '(cs1, g1) ← calls ts1 g; '(cs2, g2) ← calls ts2 g1; Done (cs1 ++ cs2, g2).
Proof.
  revert g. induction ts1 as [|t ts1 IH]; intros g; simpl.
  - destruct (calls ts2 g) as [[cs2 g2]|]; reflexivity.
  - destruct (colorForYear t g) as [[c g1]|]; simpl; [|reflexivity].
    rewrite IH. destruct (calls ts1 g1) as [[cs1 g2]|]; simpl; [|reflexivity].
    destruct (calls ts2 g2) as [[cs2 g3]|]; reflexivity.
Qed.

Lemma palette_lookup n : is_Some (colors !! (n mod length colors)%nat).
Proof.
  apply lookup_lt_is_Some. apply Nat.mod_upper_bound. discriminate.
Qed.

(** What the two package variables hold after the calls for [ts]. *)
Record tracks (ts : list Time.t) (cs : list string) (g : globals) : Prop := {
  tr_length : length cs = length ts;
  tr_dom : dom (yearToColor g) = years ts;
  tr_next : nextColor g = (size (years ts) mod length colors)%nat;
  tr_color : ∀ i t, ts !! i = Some t → cs !! i = yearToColor g !! Time.Year t;
  tr_fresh : ∀ i t, ts !! i = Some t → Time.Year t ∉ years (take i ts) →
             cs !! i = colors !! (size (years (take i ts)) mod length colors)%nat;
}.

Lemma years_snoc ts t : years (ts ++ [t]) = years ts ∪ {[Time.Year t]}.
Proof. unfold years. rewrite fmap_app, list_to_set_app_L. simpl. set_solver. Qed.

Lemma calls_tracks ts :
  ∃ cs g, calls ts initial = Done (cs, g) ∧ tracks ts cs g.
Proof.
  induction ts as [|t ts IH] using rev_ind.
  - exists [], initial. split; [reflexivity|].
    split; simpl; try done.
  - destruct IH as (cs & g & Hrun & Htr).
    rewrite calls_app, Hrun. simpl.
    destruct Htr as [Hlen Hdom Hnext Hcol Hfresh].
    unfold colorForYear.
    destruct (yearToColor g !! Time.Year t) as [c|] eqn:Hy; simpl.
    + (* a year seen before *)
      exists (cs ++ [c]), g. split; [reflexivity|].
      assert (Hin : Time.Year t ∈ years ts).
      { rewrite <- Hdom. apply elem_of_dom. eauto. }
      assert (Hsame : years (ts ++ [t]) = years ts).
      { rewrite years_snoc. set_solver. }
      split.
      * rewrite !length_app. simpl. lia.
      * rewrite Hsame. exact Hdom.
      * rewrite Hsame. exact Hnext.
      * intros i t' Hi.
        destruct (decide (i < length ts)%nat) as [Hlt|Hge].
        -- rewrite lookup_app_l in Hi by lia.
           rewrite lookup_app_l by lia. eauto.
        -- rewrite lookup_app_r in Hi by lia.
           rewrite lookup_app_r by lia. rewrite Hlen.
           destruct (i - length ts)%nat; simpl in *; [|done].
           congruence.
      * intros i t' Hi Hnew.
        destruct (decide (i < length ts)%nat) as [Hlt|Hge].
        -- rewrite lookup_app_l in Hi by lia.
           rewrite lookup_app_l by lia.
           rewrite take_app_le in Hnew |- * by lia. eauto.
        -- rewrite lookup_app_r in Hi by lia.
           assert (i = length ts).
           { apply lookup_lt_Some in Hi. simpl in Hi. lia. }
           subst i. rewrite Nat.sub_diag in Hi. simpl in Hi.
           injection Hi as <-.
           rewrite take_app_length in Hnew. done.
    + (* a new year *)
      destruct (palette_lookup (size (years ts))) as [c Hc].
      rewrite Hnext, Hc. cbn -[Nat.modulo].
      eexists (cs ++ [c]), _. split; [reflexivity|].
      assert (Hnotin : Time.Year t ∉ years ts).
      { rewrite <- Hdom. apply not_elem_of_dom. exact Hy. }
      split; cbn [yearToColor nextColor].
      * rewrite !length_app. simpl. lia.
      * rewrite dom_insert_L, Hdom, years_snoc. set_solver.
      * rewrite years_snoc, size_union by set_solver.
        rewrite size_singleton.
        change (length colors) with 12%nat.
        apply Nat.Div0.add_mod_idemp_l.
      * intros i t' Hi.
        destruct (decide (i < length ts)%nat) as [Hlt|Hge].
        -- rewrite lookup_app_l in Hi by lia.
           rewrite lookup_app_l by lia.
           rewrite lookup_insert_ne; [eauto|].
           intros Heq. apply Hnotin. rewrite Heq.
           unfold years. apply elem_of_list_to_set, list_elem_of_fmap.
           exists t'. split; [done|]. eapply list_elem_of_lookup_2; eauto.
        -- rewrite lookup_app_r in Hi by lia.
           rewrite lookup_app_r by lia. rewrite Hlen.
           destruct (i - length ts)%nat; simpl in *; [|done].
           injection Hi as <-. rewrite lookup_insert_eq. done.
      * intros i t' Hi Hnew.
        destruct (decide (i < length ts)%nat) as [Hlt|Hge].
        -- rewrite lookup_app_l in Hi by lia.
           rewrite lookup_app_l by lia.
           rewrite take_app_le in Hnew |- * by lia. eauto.
        -- rewrite lookup_app_r in Hi by lia.
           assert (i = length ts).
           { apply lookup_lt_Some in Hi. simpl in Hi. lia. }
           subst i. rewrite lookup_app_r by lia. rewrite Hlen, Nat.sub_diag.
           rewrite take_app_length. simpl. symmetry. exact Hc.
Qed.

(** C5.  In a run, the calls [colorForYear(t)] for the times [ts] all
    return, and: a call whose year was not seen before, the [N]th
    distinct year of the run, returns palette entry [(N-1) mod 12]; a
    call whose year an earlier call had returns that call's colour. *)
Theorem colorForYear_first_seen_order (ts : list Time.t) :
  ∃ cs g,
    calls ts initial = Done (cs, g) ∧ length cs = length ts ∧
    (∀ i t N, ts !! i = Some t →
       Time.Year t ∉ years (take i ts) →
       N = S (size (years (take i ts))) →
       cs !! i = colors !! ((N - 1) mod 12)%nat) ∧
    (∀ i j t u, (j < i)%nat → ts !! j = Some u → ts !! i = Some t →
       Time.Year u = Time.Year t → cs !! i = cs !! j).
Proof.
  destruct (calls_tracks ts) as (cs & g & Hrun & Htr).
  exists cs, g. split; [exact Hrun|]. split; [apply Htr|]. split.
  - intros i t N Hi Hnew ->. simpl. rewrite Nat.sub_0_r.
    apply (tr_fresh _ _ _ Htr i t Hi Hnew).
  - intros i j t u _ Hj Hi Hy.
    rewrite (tr_color _ _ _ Htr i t Hi), (tr_color _ _ _ Htr j u Hj), Hy.
    reflexivity.
Qed.

End ColorFacts.

(** ** Deduplication *)

Module DedupFacts.
Import Dedup.

Section Facts.
Context `{Platform}.

Lemma visitFromStrings_five (row : list string) :
  is_Some (visitFromStrings row) ↔ length row = 5%nat.
Proof.
  unfold visitFromStrings.
  destruct row as [|f0 [|f1 [|f2 [|f3 [|f4 [|f5 r]]]]]]; simpl;
    split; intros Hx; try (by inversion Hx); try discriminate; eauto.
Qed.

Lemma key_eq (u v : visit) :
  key u = key v ↔ same_lat4 u v = true.
Proof.
  unfold key, Sprintf_coords, same_lat4. rewrite String.eqb_eq. split.
  - apply twice_inj.
  - intros ->. reflexivity.
Qed.

Lemma parsed_snoc rows row :
  parsed (rows ++ [row]) =
  parsed rows ++ match visitFromStrings row with Some v => [v] | None => [] end.
Proof.
  unfold parsed. rewrite omap_app. simpl.
  destruct (visitFromStrings row); reflexivity.
Qed.

(** The loop's state after the rows: the keys of all visits read so far. *)
Lemma read_loop_seen rows seen vs :
  foldM read_step (∅, []) rows = Done (seen, vs) →
  seen = list_to_set (key <$> parsed rows).
Proof.
  revert seen vs. induction rows as [|row rows IH] using rev_ind; intros seen vs.
  - simpl. intros [= <- <-]. reflexivity.
  - rewrite foldM_app. destruct (foldM read_step (∅, []) rows) as [[seen0 vs0]|];
      simpl; [|discriminate].
    specialize (IH _ _ eq_refl). rewrite parsed_snoc.
    destruct (visitFromStrings row) as [v|]; simpl; [|discriminate].
    rewrite fmap_app, list_to_set_app_L. simpl. fold (key v).
    case_decide as Hin; intros [= <- <-]; subst seen0; set_solver.
Qed.

Lemma key_seen v (vs : list visit) :
  key v ∈ (list_to_set (key <$> vs) : gset string) ↔ existsb (λ u, same_lat4 u v) vs = true.
Proof.
  rewrite elem_of_list_to_set, list_elem_of_fmap, existsb_exists. split.
  - intros (u & Hk & Hin). exists u. split; [by apply list_elem_of_In|].
    apply key_eq. congruence.
  - intros (u & Hin & Hk). exists u. split; [|by apply list_elem_of_In].
    symmetry. apply key_eq. exact Hk.
Qed.

(** One more row after [rows]: its visit is appended exactly when no
    visit read before has the same rounded latitude. *)
Lemma read_visits_snoc rows row vs v :
  read_visits rows = Done vs →
  visitFromStrings row = Some v →
  read_visits (rows ++ [row]) =
  Done (if existsb (λ u, same_lat4 u v) (parsed rows) then vs else vs ++ [v]).
Proof.
  unfold read_visits. intros Hrun Hv. rewrite foldM_app.
  destruct (foldM read_step (∅, []) rows) as [[seen vs0]|] eqn:Hloop;
    simpl in *; [|discriminate].
  injection Hrun as ->. rewrite Hv. simpl. fold (key v).
  pose proof (read_loop_seen _ _ _ Hloop) as ->.
  pose proof (key_seen v (parsed rows)) as Hk.
  case_decide as Hin; simpl.
  - apply Hk in Hin. rewrite Hin. reflexivity.
  - destruct (existsb _ _); [|reflexivity]. exfalso. apply Hin, Hk. reflexivity.
Qed.

Lemma read_visits_Done rows :
  Forall (λ row, length row = 5%nat) rows ↔ ∃ vs, read_visits rows = Done vs.
Proof.
  induction rows as [|row rows IH] using rev_ind.
  - split; [|constructor]. intros _. exists []. reflexivity.
  - rewrite Forall_app, Forall_singleton, IH. split.
    + intros [[vs Hvs] Hlen]. apply visitFromStrings_five in Hlen as [v Hv].
      eexists. apply (read_visits_snoc _ _ _ _ Hvs Hv).
    + intros [vs Hvs]. unfold read_visits in *. rewrite foldM_app in Hvs.
      destruct (foldM read_step (∅, []) rows) as [[seen vs0]|]; simpl in *;
        [|discriminate].
      split; [eauto|]. apply visitFromStrings_five.
      destruct (visitFromStrings row); [eauto|discriminate].
Qed.

Lemma lat_unparsed_zero row v :
  lat_unparsed row → visitFromStrings row = Some v → lat v = F64.zero.
Proof.
  unfold lat_unparsed, visitFromStrings.
  destruct row as [|f0 [|f1 [|f2 [|f3 [|f4 [|f5 r]]]]]]; try contradiction.
  intros [e He] [= <-]. simpl. rewrite He. reflexivity.
Qed.

(** C10.  When the loop has read [rows] and kept [vs], the visit [v] of
    the next row is dropped exactly when a visit read before has the
    same latitude rounded to 4 decimals, whatever the longitudes.  So a
    row whose latitude does not parse (and is 0) is dropped when an
    earlier row's latitude did not parse either, and it is kept exactly
    when no visit read before has a latitude that is written [0.0000]:
    of the rows whose latitude does not parse at most the first is
    kept, and not even that one after a latitude such as 0.00001. *)
Theorem dedup_keyed_by_latitude rows row vs v :
  read_visits rows = Done vs →
  visitFromStrings row = Some v →
  read_visits (rows ++ [row]) =
    Done (if existsb (λ u, same_lat4 u v) (parsed rows) then vs else vs ++ [v])
  ∧ (lat_unparsed row →
     (Exists lat_unparsed rows → read_visits (rows ++ [row]) = Done vs)
     ∧ (read_visits (rows ++ [row]) = Done (vs ++ [v])
        ↔ ∀ u, u ∈ parsed rows → F64.FormatFloat 4 (lat u) ≠ "0.0000"%string)).
Proof.
  intros Hrun Hv. split; [apply read_visits_snoc; assumption|].
  intros Hrow. rewrite (read_visits_snoc _ _ _ _ Hrun Hv).
  assert (Hkey : ∀ u, same_lat4 u v = true ↔ F64.FormatFloat 4 (lat u) = "0.0000"%string).
  { intros u. unfold same_lat4. rewrite (lat_unparsed_zero _ _ Hrow Hv).
    apply String.eqb_eq. }
  split.
  - intros Hex. apply Exists_exists in Hex as (r & Hin & Hr).
    assert (Hall : Forall (λ row, length row = 5%nat) rows).
    { apply read_visits_Done. eauto. }
    rewrite Forall_forall in Hall. specialize (Hall r Hin).
    apply visitFromStrings_five in Hall as [u Hu].
    assert (Hex : existsb (λ u, same_lat4 u v) (parsed rows) = true).
    { apply existsb_exists. exists u. split.
      - apply list_elem_of_In. unfold parsed. apply list_elem_of_omap.
        exists r. split; [exact Hin|exact Hu].
      - apply Hkey. rewrite (lat_unparsed_zero _ _ Hr Hu). reflexivity. }
    rewrite Hex. reflexivity.
  - destruct (existsb (λ u, same_lat4 u v) (parsed rows)) eqn:Hex; split.
    + intros [= Heq]. apply (f_equal length) in Heq.
      rewrite length_app in Heq. simpl in Heq. lia.
    + intros Hnone. exfalso. apply existsb_exists in Hex as (u & Hu & Hk).
      apply (Hnone u); [by apply list_elem_of_In|]. apply Hkey. exact Hk.
    + intros _ u Hu Hk.
      assert (Hc : existsb (λ u, same_lat4 u v) (parsed rows) = true).
      { apply existsb_exists. exists u. split; [by apply list_elem_of_In|].
        apply Hkey. exact Hk. }
      congruence.
    + reflexivity.
Qed.

End Facts.

Lemma dedup_keyed_by_latitude_witness :
  ∃ v, @read_visits Sample.offline [Sample.row_north] = Done [v]
     ∧ @read_visits Sample.offline ([Sample.row_north] ++ [Sample.row_blank]) = Done [v].
Proof.
  eexists. split; [vm_compute; reflexivity|].
  eapply (proj1 (proj2 (@dedup_keyed_by_latitude Sample.offline
                          [Sample.row_north] Sample.row_blank _ _ eq_refl eq_refl) _)).
  constructor. exists ErrSyntax. vm_compute. reflexivity.
  Unshelve. exists ErrSyntax. vm_compute. reflexivity.
Defined.

(** C10 as stated fails when a latitude read before is written
    [0.0000]: after the row of latitude 0.00001 the one row whose
    latitude does not parse is dropped, so that no such row survives. *)
Lemma dedup_unparsed_row_dropped :
  let small := ["2020-01-01"; "museum"; "Quito"; "0.00001"; "-78.4678"]%string in
  let rows := [small; Sample.row_blank] in
  ¬ @lat_unparsed Sample.offline small
  ∧ @lat_unparsed Sample.offline Sample.row_blank
  ∧ ∃ v, @visitFromStrings Sample.offline small = Some v
       ∧ F64.FormatFloat 4 (lat v) = "0.0000"%string
       ∧ @read_visits Sample.offline rows = Done [v].
Proof.
  intros small rows. split; [|split].
  - intros [e He]. vm_compute in He. discriminate.
  - exists ErrSyntax. vm_compute. reflexivity.
  - eexists. split; [reflexivity|]. split; vm_compute; reflexivity.
Qed.

(** C1, on the code: two rows with the same latitude and different
    longitudes; the second visit is dropped. *)
Example dedup_drops_other_longitude :
  @same_lng4 (Build_visit "123 Main St" (Time.mk 2020 1 1)
                (F64.of_int 40) (F64.of_int (-75)))
             (Build_visit "9 Elm St" (Time.mk 2020 6 15)
                (F64.of_int 40) (F64.of_decimal (-1205) 1)) = false
  ∧ @read_visits Sample.offline [Sample.row_main_st; Sample.row_elm_st]
    = Done [Build_visit "123 Main St" (Time.mk 2020 1 1)
              (F64.of_int 40) (F64.of_int (-75))]
  ∧ @main Sample.offline "travel.csv" [Sample.row_main_st; Sample.row_elm_st]
    = Done ("travel.geojson"%string,
            [ {| coordinates := [F64.of_int (-75); F64.of_int 40];
                 date := "2020-01-01"; name := "123 Main St" |} ]).
Proof. split; [|split]; vm_compute; reflexivity. Qed.

(** C4 as stated fails on this program, which sorts by the date alone:
    of two visits of one day the one read first is written first,
    whatever the addresses. *)
Lemma dedup_sort_ignores_address :
  String.ltb "Abbey" "Zoo" = true
  ∧ Time.Compare (Time.mk 2020 6 15) (Time.mk 2020 6 15) = 0
  ∧ @main Sample.offline "t.csv"
      [ ["2020-06-15"; "work"; "Zoo"; "1"; "1"];
        ["2020-06-15"; "work"; "Abbey"; "2"; "2"] ]%string
    = Done ("t.geojson"%string,
            [ {| coordinates := [F64.of_int 1; F64.of_int 1];
                 date := "2020-06-15"; name := "Zoo" |};
              {| coordinates := [F64.of_int 2; F64.of_int 2];
                 date := "2020-06-15"; name := "Abbey" |} ]).
Proof. split; [|split]; vm_compute; reflexivity. Qed.

End DedupFacts.

(** ** The converter with purposes: rows, documents, partitions *)

Module TravelFacts.
Import Travel.

Section Facts.
Context `{Platform}.

Lemma visitFromStrings_length (row : list string) :
  is_Some (visitFromStrings row) ↔ length row = 5%nat.
Proof.
  unfold visitFromStrings.
  destruct row as [|f0 [|f1 [|f2 [|f3 [|f4 [|f5 r]]]]]]; simpl;
    split; intros Hx; try (by inversion Hx); try discriminate; try reflexivity.
  destruct (_ && _); [destruct (lookup _) as [[la ln] ad]|]; eauto.
Qed.

Lemma parsed_all rows :
  Forall (λ row, length row = 5%nat) rows →
  visitFromStrings <$> rows = Some <$> parsed rows.
Proof.
  unfold parsed. induction 1 as [|row rows Hrow _ IH]; simpl; [reflexivity|].
  apply visitFromStrings_length in Hrow as [v Hv]. rewrite Hv. simpl.
  f_equal. exact IH.
Qed.

(** A row without five fields leaves a nil among the visits, and the
    run panics. *)
Lemma main_short_row file rows :
  Exists (λ row, length row ≠ 5%nat) rows → main file rows = Panic.
Proof.
  intros Hex. unfold main.
  assert (Hp : mapM deref (map visitFromStrings rows) = Panic).
  { apply mapM_deref_Panic. apply Exists_exists in Hex as (row & Hin & Hlen).
    apply list_elem_of_fmap. exists row. split; [|exact Hin].
    destruct (visitFromStrings row) eqn:Hv; [|reflexivity].
    exfalso. apply Hlen, visitFromStrings_length. eauto. }
  rewrite Hp. reflexivity.
Qed.

Lemma filterByPurpose_snoc vs v p :
  filterByPurpose (vs ++ [v]) p =
  filterByPurpose vs p ++ (if String.eqb (purpose v) p then [v] else []).
Proof.
  unfold filterByPurpose. rewrite fold_left_app. simpl.
  destruct (String.eqb (purpose v) p); [reflexivity|]. rewrite app_nil_r. reflexivity.
Qed.

(** The loop of [filterByPurpose] keeps, in order, the visits whose
    purpose is [p]. *)
Lemma filterByPurpose_filter vs p :
  filterByPurpose vs p = filter (λ v, purpose v = p) vs.
Proof.
  induction vs as [|v vs IH] using rev_ind; [reflexivity|].
  rewrite filterByPurpose_snoc, IH, filter_app. f_equal.
  rewrite filter_cons, filter_nil.
  destruct (String.eqb_spec (purpose v) p); case_decide; congruence.
Qed.

(** Colours: a year that has a colour keeps it. *)
Lemma colorForYear_known t g c :
  yearToColor g !! Time.Year t = Some c → colorForYear t g = Done (c, g).
Proof. unfold colorForYear. intros ->. reflexivity. Qed.

Lemma marshal_all_known vs g :
  (∀ v, v ∈ vs → is_Some (yearToColor g !! Time.Year (when v))) →
  marshal_all vs g = Done (colored g <$> vs, g).
Proof.
  induction vs as [|v vs IH]; intros Hk; simpl; [reflexivity|].
  destruct (Hk v) as [c Hc]; [left|].
  unfold MarshalJSON. rewrite (colorForYear_known _ _ _ Hc). simpl.
  rewrite IH by (intros u Hu; apply Hk; right; exact Hu). simpl.
  unfold colored. rewrite Hc. reflexivity.
Qed.

Lemma MarshalJSON_calls v g :
  MarshalJSON v g =
  '(c, g') ← colorForYear (when v) g;
  Done ({| coordinates := [truncate4 (lng v); truncate4 (lat v)];
           marker_symbol := purpose v; marker_color := c;
           date := Time.Format (when v); name := address v |}, g').
Proof. reflexivity. Qed.

(** The first document of a run: every visit gets the colour its year
    has at the end. *)
Lemma marshal_all_tracks vs g0 :
  ∀ cs g, calls (when <$> vs) g0 = Done (cs, g) →
  (∀ i v, vs !! i = Some v → cs !! i = yearToColor g !! Time.Year (when v)) →
  marshal_all vs g0 = Done (colored g <$> vs, g).
Proof.
  revert g0. induction vs as [|v vs IH]; intros g0 cs g; simpl.
  - intros [= <- <-] _. reflexivity.
  - unfold MarshalJSON. destruct (colorForYear (when v) g0) as [[c g1]|]; simpl;
      [|discriminate].
    destruct (calls _ g1) as [[cs' g2]|] eqn:Hc; simpl; [|discriminate].
    intros [= <- <-] Hcol.
    rewrite (IH g1 cs' g2 Hc) by (intros i u Hi; apply (Hcol (S i) u Hi)).
    simpl. unfold colored at 2. specialize (Hcol 0%nat v eq_refl). simpl in Hcol.
    rewrite <- Hcol. reflexivity.
Qed.

Lemma marshal_all_initial vs :
  ∃ g, marshal_all vs initial = Done (colored g <$> vs, g)
     ∧ ∀ v, v ∈ vs → is_Some (yearToColor g !! Time.Year (when v)).
Proof.
  destruct (ColorFacts.calls_tracks (when <$> vs)) as (cs & g & Hrun & Htr).
  exists g. split.
  - apply (marshal_all_tracks vs initial cs g Hrun). intros i v Hi.
    apply (ColorFacts.tr_color _ _ _ Htr). rewrite list_lookup_fmap, Hi. reflexivity.
  - intros v Hv. apply elem_of_dom. rewrite (ColorFacts.tr_dom _ _ _ Htr).
    unfold years. apply elem_of_list_to_set. rewrite <- list_fmap_compose.
    apply list_elem_of_fmap. exists v. split; [reflexivity|exact Hv].
Qed.

Lemma save_purposes_known visits file ps g :
  (∀ v, v ∈ visits → is_Some (yearToColor g !! Time.Year (when v))) →
  save_purposes visits (primary_name file) ps g =
  Done ((λ p, (partition_name file p,
               colored g <$> filter (λ v, purpose v = p) visits)) <$> ps, g).
Proof.
  intros Hk. induction ps as [|p ps IH]; simpl; [reflexivity|].
  unfold saveVisits. rewrite filterByPurpose_filter.
  rewrite marshal_all_known.
  - simpl. rewrite IH. reflexivity.
  - intros v Hv. apply Hk. apply list_elem_of_filter in Hv. tauto.
Qed.

(** What [main] writes when every row has five fields. *)
Lemma main_Done file rows :
  Forall (λ row, length row = 5%nat) rows →
  let vs := sort_Sort Less (parsed rows) in
  ∃ g, main file rows =
    Done {| csv := strings <$> vs;
            geojson :=
              (primary_name file, colored g <$> vs) ::
              ((λ p, (partition_name file p,
                      colored g <$> filter (λ v, purpose v = p) vs))
                 <$> elements (list_to_set (purpose <$> vs) : gset string)) |}.
Proof.
  intros Hall vs. unfold main.
  assert (Hm : mapM deref (map visitFromStrings rows) = Done (parsed rows)).
  { apply mapM_deref_Done. apply parsed_all. exact Hall. }
  rewrite Hm. simpl. fold vs.
  destruct (marshal_all_initial vs) as (g & Hg & Hk).
  exists g. unfold saveVisits. rewrite Hg. simpl.
  fold (primary_name file).
  rewrite (save_purposes_known vs file _ g Hk). reflexivity.
Qed.


Lemma Less_compare a b : Less a b = is_Lt (visit_compare a b).
Proof.
  unfold Less, visit_compare, Time.Equal, Time.Before, String.ltb.
  destruct (Time.compare (when a) (when b)); reflexivity.
Qed.

Lemma visit_compare_order : comparison_order visit_compare.
Proof.
  split.
  - intros a. unfold visit_compare.
    rewrite (proj2 (time_compare_eq _ _) eq_refl). apply string_compare_refl.
  - intros a b. unfold visit_compare.
    rewrite (time_compare_antisym (when a) (when b)), (String.compare_antisym (address b) (address a)).
    destruct (Time.compare (when a) (when b)); reflexivity.
  - intros a b c. unfold visit_compare.
    destruct (Time.compare (when a) (when b)) eqn:Hab; try discriminate;
      destruct (Time.compare (when b) (when c)) eqn:Hbc; try discriminate;
      intros H1 H2.
    + apply time_compare_eq in Hab, Hbc.
      rewrite Hab, Hbc, (proj2 (time_compare_eq _ _) eq_refl).
      eapply string_compare_lt_trans; eassumption.
    + apply time_compare_eq in Hab. rewrite Hab, Hbc. reflexivity.
    + apply time_compare_eq in Hbc. rewrite <- Hbc, Hab. reflexivity.
    + rewrite (time_compare_lt_trans _ _ _ Hab Hbc). reflexivity.
  - intros a b c. unfold visit_compare.
    destruct (Time.compare (when a) (when b)) eqn:Hab; try discriminate.
    intros Hs. apply time_compare_eq in Hab. apply String.compare_eq_iff in Hs.
    rewrite Hab, Hs. reflexivity.
Qed.

Lemma Less_strict_weak : strict_weak Less.
Proof.
  destruct (comparison_strict_weak _ visit_compare_order) as [Hi Ht Hn].
  split; intros *; rewrite !Less_compare; [apply Hi|apply Ht|apply Hn].
Qed.

Lemma main_Done_rows file rows out :
  main file rows = Done out → Forall (λ row, length row = 5%nat) rows.
Proof.
  intros Hmain. apply Forall_forall. intros row Hin.
  destruct (decide (length row = 5%nat)) as [|Hne]; [assumption|].
  rewrite (main_short_row file rows) in Hmain; [discriminate|].
  apply Exists_exists. eauto.
Qed.

(** C4, for the programs that sort with [visitList.Less].  With a
    sorting routine that does what Go documents, the sorted visits are
    the given ones rearranged so that of two visits with distinct dates
    the one with the earlier date comes first, and of two visits with
    the same date and distinct addresses the one with the smaller
    address, byte by byte, comes first; [Less] is total up to visits
    with the same date and address; and the rows [main] writes are those
    of the parsed visits sorted so. *)
Theorem sort_by_date_then_address `{!Sorts H} (l : list visit) :
  Permutation l (sort_Sort Less l)
  ∧ (∀ i j a b, (i < j)%nat →
       sort_Sort Less l !! i = Some a → sort_Sort Less l !! j = Some b →
       (when a ≠ when b → Time.Before (when a) (when b) = true) ∧
       (when a = when b → address a ≠ address b →
        String.ltb (address a) (address b) = true))
  ∧ (∀ a b, Less a b = true ∨ Less b a = true
            ∨ (when a = when b ∧ address a = address b))
  ∧ (∀ file rows out, main file rows = Done out →
       csv out = strings <$> sort_Sort Less (parsed rows)).
Proof.
  split; [apply sort_Sort_perm|]. split; [|split].
  - intros i j a b Hij Hi Hj.
    pose proof (ascending_lookup _ _ (sort_Sort_ascending _ Less l
                  Less_strict_weak) i j a b Hij Hi Hj) as Hba.
    rewrite Less_compare in Hba. unfold visit_compare in Hba.
    rewrite (time_compare_antisym (when a) (when b)) in Hba.
    rewrite (String.compare_antisym (address b) (address a)) in Hba.
    unfold Time.Before, String.ltb. split.
    + intros Hne. destruct (Time.compare (when a) (when b)) eqn:Hc;
        simpl in Hba; try reflexivity; try discriminate.
      apply time_compare_eq in Hc. contradiction.
    + intros Heq Hne. rewrite (proj2 (time_compare_eq _ _) Heq) in Hba. simpl in Hba.
      destruct (String.compare (address a) (address b)) eqn:Hc;
        simpl in Hba; try reflexivity; try discriminate.
      apply String.compare_eq_iff in Hc. contradiction.
  - intros a b. rewrite !Less_compare. unfold visit_compare.
    rewrite (time_compare_antisym (when a) (when b)).
    rewrite (String.compare_antisym (address b) (address a)).
    destruct (Time.compare (when a) (when b)) eqn:Hc; simpl; auto.
    destruct (String.compare (address a) (address b)) eqn:Hs; simpl; auto.
    apply time_compare_eq in Hc. apply String.compare_eq_iff in Hs. auto.
  - intros file rows out Hmain.
    pose proof (main_Done_rows _ _ _ Hmain) as Hall.
    destruct (main_Done file rows Hall) as [g Hg]. rewrite Hg in Hmain.
    injection Hmain as <-. reflexivity.
Qed.

End Facts.

Lemma sort_by_date_then_address_witness :
  let rows := [Sample.row_elm_st; Sample.row_north; Sample.row_main_st] in
  let l := @parsed Sample.offline rows in
  Permutation l (@sort_Sort Sample.offline _ Less l)
  ∧ ∃ out, @main Sample.offline "travel.csv" rows = Done out
         ∧ csv out = @strings <$> @sort_Sort Sample.offline _ Less l.
Proof.
  intros rows l.
  destruct (@sort_by_date_then_address Sample.offline _ l) as (Hperm & _ & _ & Hmain).
  split; [exact Hperm|].
  eexists. split; [vm_compute; reflexivity|].
  apply (Hmain "travel.csv"%string rows). vm_compute. reflexivity.
Defined.

(** Three rows out of order, two of them on the same day. *)
Example sort_run :
  csv <$> @main Sample.offline "t.csv"
    [ ["2020-06-15"; "work"; "Zoo"; "1"; "1"];
      ["2020-06-15"; "work"; "Abbey"; "2"; "2"];
      ["2019-03-02"; "work"; "Mill"; "3"; "3"] ]%string
  = Done [ ["2019-03-02"; "work"; "Mill"; "3.0000"; "3.0000"];
           ["2020-06-15"; "work"; "Abbey"; "2.0000"; "2.0000"];
           ["2020-06-15"; "work"; "Zoo"; "1.0000"; "1.0000"] ]%string.
Proof. vm_compute. reflexivity. Qed.


(** The documents of a small run: the empty purpose has a document of
    its own, and the purposes are told apart by case. *)
Example partitions_run :
  geojson <$>
    @main Sample.offline "t.csv"
      [ ["2020-01-03"; "Work"; "C"; "3"; "3"];
        ["2020-01-01"; "work"; "A"; "1"; "1"];
        ["2020-01-02"; EmptyString; "B"; "2"; "2"];
        ["2020-01-04"; "work"; "D"; "4"; "4"] ]%string
  = Done
      (let f d p a n c := {| coordinates := [F64.of_int n; F64.of_int n];
                              marker_symbol := p; marker_color := c;
                              date := d; name := a |} in
       [ ("t.geojson",
          [ f "2020-01-01" "work" "A" 1 "#a6cee3"; f "2020-01-02" EmptyString "B" 2 "#a6cee3";
            f "2020-01-03" "Work" "C" 3 "#a6cee3"; f "2020-01-04" "work" "D" 4 "#a6cee3" ]);
         ("work-t.geojson",
          [ f "2020-01-01" "work" "A" 1 "#a6cee3"; f "2020-01-04" "work" "D" 4 "#a6cee3" ]);
         ("Work-t.geojson", [ f "2020-01-03" "Work" "C" 3 "#a6cee3" ]);
         ("-t.geojson", [ f "2020-01-02" EmptyString "B" 2 "#a6cee3" ]) ]%string).
Proof. vm_compute. reflexivity. Qed.

End TravelFacts.

(** ** The product of two floats, as integers *)

Module MulFacts.

Lemma shr_1_div (r : shr_record) :
  0 ≤ shr_m r → shr_m (shr_1 r) = shr_m r / 2.
Proof.
  destruct r as [m rb sb]. cbn [shr_m shr_1]. intros Hm.
  destruct m as [|[p|p|]|p]; cbn [shr_m]; try lia; try reflexivity.
  - apply Z.div_unique with (r := 1); lia.
  - apply Z.div_unique with (r := 0); lia.
Qed.

Lemma iter_shr_1_div (p : positive) :
  ∀ r, 0 ≤ shr_m r → shr_m (SpecFloat.iter_pos shr_1 p r) = shr_m r / 2 ^ Zpos p.
Proof.
  assert (Hnn : ∀ r, 0 ≤ shr_m r → 0 ≤ shr_m r / 2).
  { intros r Hr. apply Z.div_pos; lia. }
  induction p as [p IH|p IH|]; intros r Hr; cbn [SpecFloat.iter_pos].
  - assert (H1 : 0 ≤ shr_m (shr_1 r)) by (rewrite shr_1_div by exact Hr; auto).
    assert (H2 : 0 ≤ shr_m (SpecFloat.iter_pos shr_1 p (shr_1 r))).
    { rewrite IH by exact H1. apply Z.div_pos; [exact H1|]. apply Z.pow_pos_nonneg; lia. }
    rewrite IH by exact H2. rewrite IH by exact H1. rewrite shr_1_div by exact Hr.
    rewrite !Z.div_div by (try apply Z.pow_pos_nonneg; lia).
    f_equal. replace (Z.pos p~1) with (Z.pos p + Z.pos p + 1) by lia.
    rewrite !Z.pow_add_r by lia. change (2 ^ 1) with 2. ring.
  - assert (H2 : 0 ≤ shr_m (SpecFloat.iter_pos shr_1 p r)).
    { rewrite IH by exact Hr. apply Z.div_pos; [exact Hr|]. apply Z.pow_pos_nonneg; lia. }
    rewrite IH by exact H2. rewrite IH by exact Hr.
    rewrite !Z.div_div by (try apply Z.pow_pos_nonneg; lia).
    f_equal. replace (Z.pos p~0) with (Z.pos p + Z.pos p) by lia.
    rewrite !Z.pow_add_r by lia. ring.
  - rewrite shr_1_div by exact Hr. reflexivity.
Qed.

(** [shr_fexp] on an exact mantissa shifts it by [F64.shift] places;
    the bits shifted out are dropped from the mantissa. *)
Lemma shr_fexp_exact (m e : Z) :
  0 ≤ m →
  let '(r, e') := shr_fexp F64.prec F64.emax m e loc_Exact in
  shr_m r = m / 2 ^ F64.shift m e ∧ e' = e + F64.shift m e
  ∧ (F64.shift m e = 0 → loc_of_shr_record r = loc_Exact).
Proof.
  intros Hm. unfold shr_fexp, F64.shift, shr. cbn [shr_record_of_loc].
  destruct (fexp F64.prec F64.emax (Zdigits2 m + e) - e) as [|p|p] eqn:Hn.
  - cbn [shr_m]. rewrite Z.max_l by lia. rewrite Z.pow_0_r, Z.div_1_r.
    split; [reflexivity|]. split; [lia|reflexivity].
  - rewrite Z.max_r by lia.
    rewrite iter_shr_1_div by (cbn [shr_m]; exact Hm). cbn [shr_m].
    split; [reflexivity|]. split; [reflexivity|]. lia.
  - cbn [shr_m]. rewrite Z.max_l by lia. rewrite Z.pow_0_r, Z.div_1_r.
    split; [reflexivity|]. split; [lia|reflexivity].
Qed.

Lemma round_nearest_even_step (q : Z) (l : location) :
  round_nearest_even q l = q ∨ round_nearest_even q l = q + 1.
Proof.
  destruct l as [|[| |]]; cbn [round_nearest_even]; auto.
  destruct (Z.even q); auto.
Qed.

(** [binary_round_aux] on an exact positive mantissa: the mantissa is
    shifted by [n] places, goes up by one or stays, and is shifted again
    by [n2] places. *)
Lemma binary_round_aux_shape (sx : bool) (mx : positive) (ex : Z) :
  let n := F64.shift (Zpos mx) ex in
  ∃ q : Z,
    (q = Zpos mx / 2 ^ n ∨ q = Zpos mx / 2 ^ n + 1)
    ∧ (n = 0 → q = Zpos mx)
    ∧ let n2 := F64.shift q (ex + n) in
      binary_round_aux F64.prec F64.emax sx (Zpos mx) ex loc_Exact
      = match q / 2 ^ n2 with
        | Z0 => S754_zero sx
        | Zpos m =>
            if ex + n + n2 <=? F64.emax - F64.prec
            then S754_finite sx m (ex + n + n2) else S754_infinity sx
        | Zneg _ => S754_nan
        end.
Proof.
  intros n. unfold binary_round_aux.
  pose proof (shr_fexp_exact (Zpos mx) ex ltac:(lia)) as H1.
  destruct (shr_fexp F64.prec F64.emax (Z.pos mx) ex loc_Exact) as [r1 e1].
  destruct H1 as (Hm1 & He1 & Hx1). fold n in Hm1, He1, Hx1.
  set (q := round_nearest_even (shr_m r1) (loc_of_shr_record r1)).
  assert (Hq : q = Zpos mx / 2 ^ n ∨ q = Zpos mx / 2 ^ n + 1).
  { unfold q. rewrite <- Hm1. apply round_nearest_even_step. }
  assert (Hq0 : 0 ≤ q).
  { assert (0 ≤ Zpos mx / 2 ^ n) by (apply Z.div_pos; [lia|apply Z.pow_pos_nonneg; unfold n, F64.shift; lia]).
    lia. }
  exists q. split; [exact Hq|]. split.
  - intros Hn. unfold q. rewrite (Hx1 Hn). cbn [round_nearest_even].
    rewrite Hm1, Hn, Z.pow_0_r, Z.div_1_r. reflexivity.
  - pose proof (shr_fexp_exact q e1 Hq0) as H2.
    destruct (shr_fexp F64.prec F64.emax q e1 loc_Exact) as [r2 e2].
    destruct H2 as (Hm2 & He2 & _). subst e1. rewrite Hm2, He2.
    cbv zeta. reflexivity.
Qed.


#[local] Ltac same_power :=
  solve [reflexivity | f_equal; lia | f_equal; f_equal; lia].

Lemma digits2_pos_lower (p : positive) :
  2 ^ (Zpos (digits2_pos p) - 1) ≤ Zpos p.
Proof.
  induction p as [p IH|p IH|]; cbn [digits2_pos]; [| |cbn; lia].
  - rewrite Pos2Z.inj_succ.
    replace (Z.succ (Z.pos (digits2_pos p)) - 1)
      with (1 + (Z.pos (digits2_pos p) - 1)) by lia.
    rewrite Z.pow_add_r by lia. change (2 ^ 1) with 2. lia.
  - rewrite Pos2Z.inj_succ.
    replace (Z.succ (Z.pos (digits2_pos p)) - 1)
      with (1 + (Z.pos (digits2_pos p) - 1)) by lia.
    rewrite Z.pow_add_r by lia. change (2 ^ 1) with 2. lia.
Qed.

Lemma Zdigits2_lower (q : Z) : 0 < q → 2 ^ (Zdigits2 q - 1) ≤ q.
Proof. destruct q as [|p|p]; try lia. intros _. apply digits2_pos_lower. Qed.

Lemma div_succ (a d : Z) :
  0 ≤ a → 0 < d → (a + 1) / d = a / d ∨ (a + 1) / d = a / d + 1.
Proof.
  intros Ha Hd.
  pose proof (Z.div_mod a d ltac:(lia)) as Ha'.
  pose proof (Z.mod_pos_bound a d Hd) as Hr.
  destruct (decide (a mod d + 1 = d)) as [Hfull|Hnot].
  - right. symmetry. apply Z.div_unique with (r := 0); lia.
  - left. symmetry. apply Z.div_unique with (r := a mod d + 1); lia.
Qed.

Lemma fexp_eq (e : Z) :
  fexp F64.prec F64.emax e = Z.max (e - 53) (-1074).
Proof. reflexivity. Qed.

Lemma pow2_pos (u : Z) : 0 ≤ u → 0 < 2 ^ u.
Proof. intros Hu. apply Z.pow_pos_nonneg; lia. Qed.

Lemma pow2_le (u v : Z) : 0 ≤ u ≤ v → 2 ^ u ≤ 2 ^ v.
Proof. intros Huv. apply Z.pow_le_mono_r; lia. Qed.

Lemma div_div_pow2 (a u v : Z) :
  0 ≤ u → 0 ≤ v → a / 2 ^ u / 2 ^ v = a / 2 ^ (u + v).
Proof.
  intros Hu Hv. pose proof (pow2_pos u Hu). pose proof (pow2_pos v Hv).
  rewrite Z.div_div by lia. rewrite Z.pow_add_r by lia. reflexivity.
Qed.

(** A value of at least [2^u] keeps at least [2^(u-v)] when [v] bits
    are dropped. *)
Lemma div_pow2_lower (a u v : Z) :
  0 ≤ v ≤ u → 2 ^ u ≤ a → 2 ^ (u - v) ≤ a / 2 ^ v.
Proof.
  intros Huv Ha. apply Z.div_le_lower_bound; [apply pow2_pos; lia|].
  rewrite <- Z.pow_add_r by lia. replace (v + (u - v)) with u by lia. exact Ha.
Qed.

(** The magnitude [int] gives for the float of mantissa [M] and
    exponent [E]. *)
Lemma trunc_magnitude (s : bool) (m : positive) (e : Z) :
  F64.trunc s m e = (if s then -1 else 1) * F64.trunc false m e.
Proof. unfold F64.trunc. destruct s; lia. Qed.

Lemma to_int_small (s : bool) (m : positive) (e : Z) :
  F64.trunc false m e ≤ 2 ^ 52 →
  F64.to_int (S754_finite s m e)
  = Some (if s then - F64.trunc false m e else F64.trunc false m e).
Proof.
  intros Hk. cbn [F64.to_int].
  assert (Hnn : 0 ≤ F64.trunc false m e).
  { unfold F64.trunc. destruct (0 <=? e) eqn:He.
    - apply Z.leb_le in He. pose proof (pow2_pos e He). nia.
    - apply Z.leb_gt in He. apply Z.div_pos; [lia|apply pow2_pos; lia]. }
  rewrite (trunc_magnitude s).
  assert (Hr : (F64.int_min <=? (if s then -1 else 1) * F64.trunc false m e)
               && ((if s then -1 else 1) * F64.trunc false m e <=? F64.int_max) = true).
  { apply andb_true_iff. unfold F64.int_min, F64.int_max.
    change (2 ^ 52) with 4503599627370496 in Hk.
    change (2 ^ 63) with 9223372036854775808.
    split; apply Z.leb_le; destruct s; lia. }
  rewrite Hr. f_equal. destruct s; lia.
Qed.

(** The float that [binary_round_aux] makes of the exact value
    [mx * 2^ex], converted to an [int]: the integer part of the value,
    or the next integer when the value is rounded up to it. *)
Lemma round_to_int (sx : bool) (mx : positive) (ex : Z) :
  F64.trunc false mx ex < 2 ^ 52 →
  ∃ k, F64.to_int (binary_round_aux F64.prec F64.emax sx (Zpos mx) ex loc_Exact)
       = Some (if sx then - k else k)
     ∧ (k = F64.trunc false mx ex ∨ k = F64.trunc false mx ex + 1).
Proof.
  intros HT.
  destruct (binary_round_aux_shape sx mx ex) as (q & Hq & Hq0 & Hres).
  cbv zeta in Hres. rewrite Hres. clear Hres.
  set (n := F64.shift (Zpos mx) ex) in *.
  set (n2 := F64.shift q (ex + n)) in *.
  assert (Hn : 0 ≤ n) by (unfold n, F64.shift; lia).
  assert (Hn2 : 0 ≤ n2) by (unfold n2, F64.shift; lia).
  set (a := Zpos mx / 2 ^ n) in *.
  assert (Ha : 0 ≤ a) by (apply Z.div_pos; [lia|apply pow2_pos; lia]).
  assert (Hqn : 0 ≤ q) by lia.
  assert (HTn : 0 ≤ F64.trunc false mx ex).
  { unfold F64.trunc. destruct (0 <=? ex) eqn:He.
    - apply Z.leb_le in He. pose proof (pow2_pos ex He). nia.
    - apply Z.leb_gt in He. apply Z.div_pos; [lia|apply pow2_pos; lia]. }
  destruct (Z_le_gt_dec (ex + n + n2) 0) as [HE|HE].
  - (* the final exponent is not positive *)
    assert (HTa : F64.trunc false mx ex = a / 2 ^ (n2 - (ex + n + n2))).
    { unfold F64.trunc. destruct (0 <=? ex) eqn:He.
      - apply Z.leb_le in He. assert (ex = 0) by lia. assert (n = 0) by lia.
        assert (n2 = 0) by lia. subst a. 
        replace (n2 - (ex + n + n2)) with 0 by lia.
        replace n with 0 by lia. replace ex with 0 by lia.
        rewrite !Z.pow_0_r, !Z.div_1_r. lia.
      - apply Z.leb_gt in He. unfold a.
        rewrite div_div_pow2 by lia. same_power. }
    assert (HK : q / 2 ^ n2 / 2 ^ (- (ex + n + n2)) = q / 2 ^ (n2 - (ex + n + n2))).
    { rewrite div_div_pow2 by lia. same_power. }
    assert (HKT : q / 2 ^ (n2 - (ex + n + n2)) = F64.trunc false mx ex
                ∨ q / 2 ^ (n2 - (ex + n + n2)) = F64.trunc false mx ex + 1).
    { rewrite HTa. destruct Hq as [->| ->]; [left; reflexivity|].
      apply div_succ; [exact Ha|apply pow2_pos; lia]. }
    destruct (q / 2 ^ n2) as [|M|M] eqn:HM.
    + exists 0. split; [destruct sx; reflexivity|].
      rewrite Z.div_0_l in HK by (pose proof (pow2_pos (- (ex + n + n2))); lia).
      rewrite <- HK in HKT. exact HKT.
    + assert (Hfin : (ex + n + n2 <=? F64.emax - F64.prec) = true).
      { apply Z.leb_le. unfold F64.emax, F64.prec. lia. }
      rewrite Hfin.
      assert (Htr : F64.trunc false M (ex + n + n2) = q / 2 ^ (n2 - (ex + n + n2))).
      { rewrite <- HK. unfold F64.trunc. destruct (0 <=? ex + n + n2) eqn:He.
        - apply Z.leb_le in He. replace (ex + n + n2) with 0 by lia.
          rewrite Z.pow_0_r, Z.div_1_r. lia.
        - reflexivity. }
      exists (F64.trunc false M (ex + n + n2)). split.
      * apply to_int_small. rewrite Htr. lia.
      * rewrite Htr. exact HKT.
    + exfalso. assert (0 ≤ q / 2 ^ n2) by (apply Z.div_pos; [lia|apply pow2_pos; lia]).
      lia.
  - (* the final exponent is positive: nothing is shifted out *)
    assert (Hn0 : n = 0).
    { destruct (Z.eq_dec n 0) as [|Hnz]; [assumption|exfalso].
      assert (He' : ex + n = Z.max (Zdigits2 (Zpos mx) + ex - 53) (-1074)).
      { unfold n, F64.shift in *. rewrite fexp_eq in *. lia. }
      pose proof (Zdigits2_lower (Zpos mx) ltac:(lia)) as Hd.
      set (d := Zdigits2 (Zpos mx)) in *.
      assert (Hd1 : 1 ≤ d) by (unfold d; cbn; lia).
      destruct (Z_le_gt_dec (ex + n) 0) as [Hle|Hgt].
      - (* the second shift makes the exponent positive *)
        assert (Hn2p : 0 < n2) by lia.
        assert (Hqpos : 0 < q).
        { destruct (Z.eq_dec q 0) as [Hz|]; [|lia]. exfalso.
          unfold n2, F64.shift in Hn2p. rewrite Hz, fexp_eq in Hn2p. cbn [Zdigits2] in Hn2p. lia. }
        assert (HE' : ex + n + n2 = Zdigits2 q + (ex + n) - 53).
        { unfold n2, F64.shift in *. rewrite fexp_eq in *. lia. }
        pose proof (Zdigits2_lower q Hqpos) as Hdq.
        assert (Hbig : 2 ^ (53 - (ex + n)) ≤ q).
        { etrans; [|exact Hdq]. apply pow2_le. lia. }
        assert (Hex : ex < 0) by lia.
        assert (HTa : F64.trunc false mx ex = a / 2 ^ (- (ex + n))).
        { unfold F64.trunc. destruct (0 <=? ex) eqn:He; [apply Z.leb_le in He; lia|].
          unfold a. rewrite div_div_pow2 by lia. same_power. }
        assert (Hpw : 2 ^ (53 - (ex + n)) = 2 ^ 53 * 2 ^ (- (ex + n))).
        { rewrite <- Z.pow_add_r by lia. same_power. }
        pose proof (pow2_pos (- (ex + n)) ltac:(lia)) as Hc.
        assert (2 ^ 53 - 1 ≤ a / 2 ^ (- (ex + n))).
        { apply Z.div_le_lower_bound; [exact Hc|]. nia. }
        change (2 ^ 53) with 9007199254740992 in *.
        change (2 ^ 52) with 4503599627370496 in *. lia.
      - (* the first shift already does *)
        assert (Hsum : 54 ≤ d + ex) by lia.
        assert (2 ^ 53 ≤ F64.trunc false mx ex).
        { unfold F64.trunc. destruct (0 <=? ex) eqn:He.
          - apply Z.leb_le in He.
            assert (2 ^ 53 ≤ 2 ^ (d - 1) * 2 ^ ex).
            { rewrite <- Z.pow_add_r by lia. apply pow2_le. lia. }
            pose proof (pow2_pos ex He). nia.
          - apply Z.leb_gt in He.
            replace 53 with ((53 - ex) - (- ex)) at 1 by lia.
            apply div_pow2_lower; [lia|].
            etrans; [|exact Hd]. apply pow2_le. lia. }
        change (2 ^ 53) with 9007199254740992 in *.
        change (2 ^ 52) with 4503599627370496 in *. lia. }
    assert (Hqm : q = Zpos mx) by (apply Hq0; exact Hn0).
    assert (Hn20 : n2 = 0).
    { unfold n2. rewrite Hqm, Hn0, Z.add_0_r. exact Hn0. }
    rewrite Hn20, Z.pow_0_r, Z.div_1_r, Hqm, Hn0, !Z.add_0_r.
    rewrite Hn0, Hn20, !Z.add_0_r in HE.
    assert (HTe : F64.trunc false mx ex = Zpos mx * 2 ^ ex).
    { unfold F64.trunc. destruct (0 <=? ex) eqn:He; [reflexivity|].
      apply Z.leb_gt in He. lia. }
    assert (Hex52 : ex < 52).
    { destruct (Z_lt_ge_dec ex 52) as [|Hge]; [assumption|exfalso].
      assert (2 ^ 52 ≤ 2 ^ ex) by (apply pow2_le; lia).
      pose proof (pow2_pos 52 ltac:(lia)). nia. }
    assert (Hfin : (ex <=? F64.emax - F64.prec) = true).
    { apply Z.leb_le. unfold F64.emax, F64.prec. lia. }
    rewrite Hfin. exists (F64.trunc false mx ex). split; [|left; reflexivity].
    apply to_int_small. lia.
Qed.

End MulFacts.


(** ** Coordinates of a feature *)

Module CoordFacts.

Lemma to_int_integer_part (x : float64) (k : Z) :
  F64.to_int x = Some k →
  F64.integer_part x k ∧ F64.int_min ≤ k ≤ F64.int_max.
Proof.
  destruct x as [s|s| |s m e]; simpl; try discriminate.
  - intros [= <-]. split; [reflexivity|]. unfold F64.int_min, F64.int_max. lia.
  - destruct (_ && _) eqn:Hr; [|discriminate]. intros [= <-].
    apply andb_true_iff in Hr as [Hlo Hhi].
    apply Z.leb_le in Hlo, Hhi. split; [|lia].
    unfold F64.trunc. destruct (0 <=? e) eqn:He.
    + apply Z.leb_le in He.
      assert (Hp : 0 < 2 ^ e) by (apply Z.pow_pos_nonneg; lia).
      rewrite (Z.max_l 0 (- e)), (Z.max_r 0 e) by lia. simpl (2 ^ 0).
      destruct s; split; nia.
    + apply Z.leb_gt in He.
      assert (Hp : 0 < 2 ^ (- e)) by (apply Z.pow_pos_nonneg; lia).
      rewrite (Z.max_r 0 (- e)), (Z.max_l 0 e) by lia. simpl (2 ^ 0).
      pose proof (Z.div_mod (Z.pos m) (2 ^ (- e)) ltac:(lia)) as Hdm.
      pose proof (Z.mod_pos_bound (Z.pos m) (2 ^ (- e)) Hp) as Hmod.
      assert (Hq : 0 ≤ Z.pos m / 2 ^ (- e)) by (apply Z.div_pos; lia).
      destruct s; split; nia.
Qed.

(** The exact integer part of [10000 * x] from the mantissa of the
    product [float64(10000) * x] before it is rounded. *)
Lemma product_trunc (m : positive) (e : Z) :
  F64.trunc false (5497558138880000 * m) (-39 + e) = F64.trunc false (10000 * m) e.
Proof.
  unfold F64.trunc. rewrite !Pos2Z.inj_mul.
  assert (H39 : 2 ^ 39 = 549755813888) by reflexivity.
  assert (HM : Z.pos 5497558138880000 = 10000 * 549755813888) by reflexivity.
  rewrite HM. generalize (Z.pos m). intros z.
  destruct (0 <=? -39 + e) eqn:H1; destruct (0 <=? e) eqn:H2.
  - apply Z.leb_le in H1, H2.
    replace (2 ^ e) with (2 ^ 39 * 2 ^ (-39 + e))
      by (rewrite <- Z.pow_add_r by lia; f_equal; lia).
    rewrite H39. ring.
  - apply Z.leb_le in H1. apply Z.leb_gt in H2. lia.
  - apply Z.leb_gt in H1. apply Z.leb_le in H2.
    replace (10000 * 549755813888 * z)
      with (10000 * z * 2 ^ e * 2 ^ (- (-39 + e))).
    + apply Z.div_mul. pose proof (MulFacts.pow2_pos (- (-39 + e)) ltac:(lia)). lia.
    + rewrite <- (Z.mul_assoc (10000 * z)), <- Z.pow_add_r by lia.
      replace (e + - (-39 + e)) with 39 by lia. rewrite H39. ring.
  - apply Z.leb_gt in H1, H2.
    replace (2 ^ (- (-39 + e))) with (549755813888 * 2 ^ (- e))
      by (rewrite <- H39, <- Z.pow_add_r by lia; f_equal; lia).
    replace (10000 * 549755813888 * z) with (549755813888 * (10000 * z)) by ring.
    apply Z.div_mul_cancel_l; [|lia].
    pose proof (MulFacts.pow2_pos (- e) ltac:(lia)). lia.
Qed.

Lemma mul_10000_to_int (x : float64) :
  F64.finite x = true →
  Z.abs (F64.scaled_trunc 10000 x) < 2 ^ 52 →
  ∃ k, F64.to_int (F64.mul (F64.of_int 10000) x) = Some k
     ∧ (k = F64.scaled_trunc 10000 x
        ∨ k = F64.scaled_trunc 10000 x + (if F64.signbit x then -1 else 1)).
Proof.
  destruct x as [s|s| |s m e]; try discriminate; intros _ Hsmall.
  - exists 0. split; [reflexivity|left; reflexivity].
  - cbn [F64.scaled_trunc F64.signbit] in *.
    rewrite MulFacts.trunc_magnitude in Hsmall.
    assert (Hnn : 0 ≤ F64.trunc false (10000 * m) e).
    { unfold F64.trunc. destruct (0 <=? e) eqn:He.
      - apply Z.leb_le in He. pose proof (MulFacts.pow2_pos e He). nia.
      - apply Z.leb_gt in He. apply Z.div_pos; [lia|apply MulFacts.pow2_pos; lia]. }
    assert (Hsm : F64.trunc false (5497558138880000 * m) (-39 + e) < 2 ^ 52).
    { rewrite product_trunc. destruct s; lia. }
    destruct (MulFacts.round_to_int (xorb false s) (5497558138880000 * m) (-39 + e) Hsm)
      as (k & Hk & Hkt).
    rewrite product_trunc in Hkt.
    change (F64.mul (F64.of_int 10000) (S754_finite s m e))
      with (binary_round_aux F64.prec F64.emax (xorb false s)
              (Zpos (5497558138880000 * m)) (-39 + e) loc_Exact).
    rewrite Hk. eexists. split; [reflexivity|].
    rewrite (MulFacts.trunc_magnitude s). cbn [xorb]. destruct s; lia.
Qed.

Section Facts.
Context `{Platform}.

Lemma truncate4_to_int (x : float64) (k : Z) :
  F64.to_int (F64.mul (F64.of_int 10000) x) = Some k →
  truncate4 x = F64.div (F64.of_int k) (F64.of_int 10000).
Proof. unfold truncate4, int_of_float. intros ->. reflexivity. Qed.

Lemma travel_coordinates v g f g' :
  Travel.MarshalJSON v g = Done (f, g') →
  Travel.coordinates f = [truncate4 (Travel.lng v); truncate4 (Travel.lat v)].
Proof.
  unfold Travel.MarshalJSON.
  destruct (Travel.colorForYear _ g) as [[c g1]|]; simpl; [|discriminate].
  intros [= <- <-]. reflexivity.
Qed.

(** C6, for the two programs of [part_000].  A feature carries, for the
    longitude and then the latitude, [truncate4] of the coordinate.  For
    a finite [x] whose product with 10000 is below [2^52] in magnitude,
    [truncate4 x] is [float64(k) / 10000], where [k] is the float64
    product [10000 * x] with its fractional part discarded; the product
    being rounded to a float64 first, [k] is the integer part of the
    exact product rounded toward zero, or the integer one further from
    zero. *)
Theorem coordinates_truncated (x : float64) :
  F64.finite x = true →
  Z.abs (F64.scaled_trunc 10000 x) < 2 ^ 52 →
  ∃ k, F64.to_int (F64.mul (F64.of_int 10000) x) = Some k
     ∧ F64.integer_part (F64.mul (F64.of_int 10000) x) k
     ∧ truncate4 x = F64.div (F64.of_int k) (F64.of_int 10000)
     ∧ (k = F64.scaled_trunc 10000 x
        ∨ k = F64.scaled_trunc 10000 x + (if F64.signbit x then -1 else 1))
     ∧ (∀ v g f g', Travel.MarshalJSON v g = Done (f, g') →
          Travel.coordinates f = [truncate4 (Travel.lng v); truncate4 (Travel.lat v)])
     ∧ (∀ u, Dedup.coordinates (Dedup.MarshalJSON u)
             = [truncate4 (Dedup.lng u); truncate4 (Dedup.lat u)]).
Proof.
  intros Hfin Hsmall.
  destruct (mul_10000_to_int x Hfin Hsmall) as (k & Hk & Hkt).
  exists k. split; [exact Hk|].
  split; [eapply to_int_integer_part; eassumption|].
  split; [apply truncate4_to_int; assumption|].
  split; [exact Hkt|].
  split; [apply travel_coordinates|reflexivity].
Qed.

(** The deduplicating converter truncates in the same way. *)
Lemma dedup_coordinates_truncated (v : Dedup.visit) :
  Dedup.coordinates (Dedup.MarshalJSON v)
  = [truncate4 (Dedup.lng v); truncate4 (Dedup.lat v)].
Proof. reflexivity. Qed.

(** [resolve.go] writes the coordinates as they are. *)
Lemma resolve_coordinates_unchanged v g f g' :
  Resolve.MarshalJSON v g = Done (f, g') →
  Travel.coordinates f = [Travel.lng v; Travel.lat v].
Proof.
  unfold Resolve.MarshalJSON.
  destruct (Travel.colorForYear _ g) as [[c g1]|]; simpl; [|discriminate].
  intros [= <- <-]. reflexivity.
Qed.

End Facts.

(** The longitude 12.34567 is written as 12.3456, not as 12.3457. *)
Lemma coordinates_truncated_witness :
  let v := {| Travel.address := "123 Main St"; Travel.when := Time.mk 2020 1 1;
              Travel.purpose := "museum";
              Travel.lat := F64.of_int 40;
              Travel.lng := F64.of_decimal 1234567 5 |} in
  F64.scaled_trunc 10000 (F64.of_decimal 1234567 5) = 123456
  ∧ ∃ f g',
    @Travel.MarshalJSON Sample.offline v Travel.initial = Done (f, g')
    ∧ Travel.coordinates f = [F64.of_decimal 123456 4; F64.of_int 40]
    ∧ F64.of_decimal 123456 4 ≠ F64.of_decimal 123457 4.
Proof.
  intros v. split; [vm_compute; reflexivity|].
  destruct (@Travel.MarshalJSON Sample.offline v Travel.initial) as [[f g']|] eqn:Hm;
    [|vm_compute in Hm; discriminate].
  exists f, g'. split; [reflexivity|]. split; [|vm_compute; discriminate].
  destruct (@coordinates_truncated Sample.offline (F64.of_decimal 1234567 5)
              ltac:(vm_compute; reflexivity) ltac:(vm_compute; reflexivity))
    as (k & Hk & _ & Hx & _ & Hv & _).
  rewrite (Hv v _ _ _ Hm). cbn [Travel.lng Travel.lat v]. rewrite Hx.
  vm_compute in Hk. injection Hk as <-. vm_compute. reflexivity.
Defined.

(** C6 as stated fails in [part_000] too: the product is rounded before
    it is truncated.  The longitude 55.670899999999996 (the float64 just
    below 55.6709) times 10000 is 556708.99999999996..., which rounds to
    the float64 556709; the coordinate written is 55.6709, above the
    value, where truncation toward zero gives 55.6708. *)
Lemma coordinate_above_value :
  let x := S754_finite false 7834982640480629 (-47) in
  let v := {| Travel.address := "123 Main St"; Travel.when := Time.mk 2020 1 1;
              Travel.purpose := "museum";
              Travel.lat := F64.of_int 40; Travel.lng := x |} in
  fst (Sample.parse_decimal "55.670899999999996") = x
  ∧ F64.scaled_trunc 10000 x = 556708
  ∧ F64.to_int (F64.mul (F64.of_int 10000) x) = Some 556709
  ∧ (∃ f g',
       @Travel.MarshalJSON Sample.offline v Travel.initial = Done (f, g')
       ∧ Travel.coordinates f = [F64.of_decimal 556709 4; F64.of_int 40])
  ∧ SFltb x (F64.of_decimal 556709 4) = true
  ∧ SFltb (F64.of_decimal 556708 4) x = true.
Proof.
  intros x v. repeat split; try (vm_compute; reflexivity).
  eexists _, _. split; vm_compute; reflexivity.
Qed.

(** [resolve.go] does not truncate at all: the longitude 12.34567 is
    written as it is. *)
Lemma resolve_coordinates_run :
  ∃ f g',
    Resolve.MarshalJSON
      {| Travel.address := "123 Main St"; Travel.when := Time.mk 2020 1 1;
         Travel.purpose := "museum";
         Travel.lat := F64.of_int 40; Travel.lng := F64.of_decimal 1234567 5 |}
      Travel.initial = Done (f, g')
    ∧ Travel.coordinates f = [F64.of_decimal 1234567 5; F64.of_int 40]
    ∧ F64.of_decimal 1234567 5 ≠ F64.of_decimal 123456 4.
Proof.
  eexists _, _. split; [vm_compute; reflexivity|].
  split; [vm_compute; reflexivity|vm_compute; discriminate].
Qed.

End CoordFacts.

(** ** The geocode lookup *)

Module LookupFacts.

Section Facts.
Context `{Platform}.

Lemma lookup_request search :
  Travel.lookup search =
  match http_Get (Travel.request search) with
  | None => (F64.zero, F64.zero, search)
  | Some resp =>
      if 299 <? StatusCode resp then (F64.zero, F64.zero, search)
      else match Body resp with
           | Unreadable => (F64.zero, F64.zero, search)
           | Readable bs =>
               match json_Unmarshal bs with
               | None | Some [] => (F64.zero, F64.zero, search)
               | Some (r :: _) => (Lat r, Lng r, Address r)
               end
           end
  end.
Proof. reflexivity. Qed.

Lemma lookup_failure (search : string) :
  Travel.failure (http_Get (Travel.request search)) →
  Travel.lookup search = Travel.sentinel search.
Proof.
  rewrite lookup_request. unfold Travel.sentinel.
  destruct 1 as [|resp Hs|resp Hb|resp bs Hb Hj|resp bs Hb Hj].
  - reflexivity.
  - apply Z.ltb_lt in Hs. rewrite Hs. reflexivity.
  - rewrite Hb. destruct (_ <? _); reflexivity.
  - rewrite Hb, Hj. destruct (_ <? _); reflexivity.
  - rewrite Hb, Hj. destruct (_ <? _); reflexivity.
Qed.

(** C3, as the code has it.  In the program with the API key, for every
    address and every failure of the lookup (no response, a status above
    299, an unreadable body, an unparseable body, no results), [lookup]
    returns the coordinates (0, 0) and the address it was given. *)
Theorem lookup_failure_sentinel (search : string) :
  Travel.failure (http_Get (Travel.request search)) →
  Travel.lookup search = (F64.zero, F64.zero, search).
Proof.
  intros Hfail. rewrite lookup_request.
  inversion Hfail as [Hg|resp Hs Hg|resp Hb Hg|resp bs Hb Hj Hg|resp bs Hb Hj Hg].
  - reflexivity.
  - apply Z.ltb_lt in Hs. rewrite Hs. reflexivity.
  - rewrite Hb. case (299 <? StatusCode resp); reflexivity.
  - rewrite Hb, Hj. case (299 <? StatusCode resp); reflexivity.
  - rewrite Hb, Hj. case (299 <? StatusCode resp); reflexivity.
Qed.

(** When nothing fails, the first result is returned. *)
Lemma lookup_success search resp bs r rs :
  http_Get (Travel.request search) = Some resp →
  StatusCode resp ≤ 299 →
  Body resp = Readable bs →
  json_Unmarshal bs = Some (r :: rs) →
  Travel.lookup search = (Lat r, Lng r, Address r).
Proof.
  intros Hg Hs Hb Hj. rewrite lookup_request, Hg, Hb, Hj.
  apply Z.ltb_ge in Hs. rewrite Hs. reflexivity.
Qed.

Lemma loopkup_failure_empty (search : string) :
  Resolve.failure (http_Get (Resolve.request search)) →
  Resolve.loopkup search = (F64.zero, F64.zero, EmptyString).
Proof.
  unfold Resolve.loopkup. fold (Resolve.request search).
  destruct 1 as [|resp Hj|resp Hj]; [reflexivity|rewrite Hj..]; reflexivity.
Qed.

(** C9.  In [resolve.go], a row whose coordinates parse to (0, 0) and
    whose lookup fails (no response, a body that does not decode, no
    results) gives a visit with the empty address, and the empty address
    is what the rewritten CSV row carries: the address of the row is
    lost. *)
Theorem resolve_failure_loses_address (f0 f1 f2 f3 f4 : string) :
  F64.eqb (fst (ParseFloat f3)) F64.zero = true →
  F64.eqb (fst (ParseFloat f4)) F64.zero = true →
  Resolve.failure (http_Get (Resolve.request f2)) →
  ∃ v, Resolve.visitFromStrings [f0; f1; f2; f3; f4] = Some v
     ∧ Travel.address v = EmptyString
     ∧ Resolve.strings v !! 2%nat = Some EmptyString.
Proof.
  intros Hlat Hlng Hfail. unfold Resolve.visitFromStrings. simpl.
  rewrite Hlat, Hlng. simpl. rewrite (loopkup_failure_empty _ Hfail).
  eexists. split; [reflexivity|]. split; reflexivity.
Qed.

End Facts.

Lemma lookup_failure_sentinel_witness :
  @Travel.failure Sample.offline (@http_Get Sample.offline (@Travel.request Sample.offline "123 Main St"))
  ∧ @Travel.lookup Sample.offline "123 Main St" = (F64.zero, F64.zero, "123 Main St"%string).
Proof.
  split; [constructor|].
  apply (@lookup_failure_sentinel Sample.offline "123 Main St"). constructor.
Defined.

(** C3 as stated fails for a status that is not 2xx and not above 299:
    the response is read like a successful one. *)
Lemma lookup_status_101 :
  ∃ resp, @http_Get (Sample.geocoder 101) (@Travel.request (Sample.geocoder 101) "123 Main St") = Some resp
        ∧ ¬ (200 ≤ StatusCode resp ≤ 299)
        ∧ @Travel.lookup (Sample.geocoder 101) "123 Main St"
          ≠ (F64.zero, F64.zero, "123 Main St"%string).
Proof.
  eexists. split; [reflexivity|]. split; [simpl; lia|].
  vm_compute. discriminate.
Qed.

Lemma resolve_failure_loses_address_witness :
  ∃ v, @Resolve.visitFromStrings Sample.offline
         ["2020-01-01"; "museum"; "123 Main St"; "0"; "0"]%string = Some v
     ∧ Travel.address v = EmptyString.
Proof.
  destruct (@resolve_failure_loses_address Sample.offline
              "2020-01-01" "museum" "123 Main St" "0" "0")
    as (v & Hv & Ha & _); [reflexivity|reflexivity|constructor|].
  exists v. split; assumption.
Defined.

End LookupFacts.

(** ** From a row to a visit and back *)

Module RoundTripFacts.

Lemma round_half_even_bound (a b : Z) :
  0 < b → 2 * Z.abs (F64.round_half_even a b * b - a) ≤ b.
Proof.
  intros Hb. unfold F64.round_half_even.
  pose proof (Z.div_mod a b ltac:(lia)) as Hdm.
  pose proof (Z.mod_pos_bound a b Hb) as Hm.
  destruct (Z.compare_spec (2 * (a mod b)) b) as [He|Hl|Hg];
    [destruct (Z.even (a / b))|..]; nia.
Qed.

Lemma round_half_even_nonneg (a b : Z) :
  0 ≤ a → 0 < b → 0 ≤ F64.round_half_even a b.
Proof.
  intros Ha Hb. unfold F64.round_half_even.
  assert (0 ≤ a / b) by (apply Z.div_pos; lia).
  destruct (_ ?= _); [destruct (Z.even _)|..]; lia.
Qed.

(** [FormatFloat] writes a finite value to within half a unit of the
    last decimal. *)
Lemma FormatFloat_accurate (p : nat) (x : float64) :
  p ≠ O → F64.finite x = true → F64.accurate p x (F64.FormatFloat p x).
Proof.
  intros Hp0.
  destruct x as [s|s| |s m e]; try discriminate; intros _;
    unfold F64.accurate, F64.within_half_unit, F64.FormatFloat.
  - exists (if s then - 0 else 0).
    split; [apply fixed_denotes; [lia|assumption]|destruct s; reflexivity].
  - exists (if s then - F64.scaled p m e else F64.scaled p m e).
    assert (Hten : 0 < 10 ^ Z.of_nat p) by (apply Z.pow_pos_nonneg; lia).
    assert (Hsg : ∀ n a b c : Z,
              Z.abs ((if s then - n else n) * a - F64.signed s m * b * c)
              = Z.abs (n * a - Zpos m * b * c)).
    { intros n a b c. unfold F64.signed. destruct s; [|reflexivity].
      replace (- n * a - Z.neg m * b * c) with (- (n * a - Z.pos m * b * c))
        by (rewrite <- Pos2Z.opp_pos; ring).
      apply Z.abs_opp. }
    unfold F64.scaled. destruct (0 <=? e) eqn:He.
    + apply Z.leb_le in He.
      assert (Hp : 0 < 2 ^ e) by (apply Z.pow_pos_nonneg; lia).
      split; [apply fixed_denotes; [nia|assumption]|].
      rewrite Hsg.
      rewrite (Z.max_l 0 (- e)), (Z.max_r 0 e) by lia. simpl (2 ^ 0).
      rewrite Z.mul_1_r, Z.sub_diag. simpl. lia.
    + apply Z.leb_gt in He.
      assert (Hp : 0 < 2 ^ (- e)) by (apply Z.pow_pos_nonneg; lia).
      split; [apply fixed_denotes; [apply round_half_even_nonneg; nia|assumption]|].
      rewrite Hsg.
      rewrite (Z.max_r 0 (- e)), (Z.max_l 0 e) by lia. simpl (2 ^ 0).
      rewrite Z.mul_1_r. apply round_half_even_bound. exact Hp.
Qed.

Section Facts.
Context `{Platform}.

(** C7, as the code has it.  For a valid row of five fields for which
    no lookup is made, or for which the lookup fails, the visit parsed
    from the row is written back with the row's date, purpose and
    address, and with the parsed latitude and longitude to 4 decimals,
    each within 0.00005 of the number parsed. *)
Theorem row_round_trip (f0 f1 f2 f3 f4 : string) :
  Travel.valid_row [f0; f1; f2; f3; f4] →
  Travel.unresolved [f0; f1; f2; f3; f4] = false
  ∨ Travel.failure (http_Get (Travel.request f2)) →
  ∃ v la ln,
    Travel.visitFromStrings [f0; f1; f2; f3; f4] = Some v
    ∧ Travel.strings v = [f0; f1; f2; la; ln]
    ∧ F64.accurate 4 (fst (ParseFloat (TrimSpace f3))) la
    ∧ F64.accurate 4 (fst (ParseFloat (TrimSpace f4))) ln.
Proof.
  intros (H0 & H1 & H2 & Hd & _ & Hfa & _ & Hfn) Hcase.
  unfold Travel.visitFromStrings, Travel.strings, Travel.unresolved in *.
  cbn [Travel.lat Travel.lng Travel.address Travel.when Travel.purpose] in *.
  rewrite H0, H1, H2.
  assert (Hfmt : Time.Format (fst (Time.Parse f0)) = f0).
  { apply Parse_Format. destruct (Time.Parse f0) as [t b]. simpl in *. congruence. }
  set (la := fst (ParseFloat (TrimSpace f3))) in *.
  set (ln := fst (ParseFloat (TrimSpace f4))) in *.
  destruct (F64.eqb la F64.zero && F64.eqb ln F64.zero) eqn:Hz.
  - destruct Hcase as [|Hfail]; [discriminate|].
    rewrite (LookupFacts.lookup_failure f2 Hfail). unfold Travel.sentinel.
    eexists _, _, _. split; [reflexivity|].
    cbn [Travel.lat Travel.lng Travel.address Travel.when Travel.purpose].
    rewrite Hfmt. split; [reflexivity|].
    apply andb_true_iff in Hz as [Hza Hzn].
    split.
    + destruct la as [s|s| |s m e]; try discriminate.
      * exists 0. split; [apply (fixed_denotes 4 0 false); lia|reflexivity].
      * destruct s; discriminate.
    + destruct ln as [s|s| |s m e]; try discriminate.
      * exists 0. split; [apply (fixed_denotes 4 0 false); lia|reflexivity].
      * destruct s; discriminate.
  - eexists _, _, _. split; [reflexivity|].
    cbn [Travel.lat Travel.lng Travel.address Travel.when Travel.purpose].
    rewrite Hfmt. split; [reflexivity|].
    split; apply FormatFloat_accurate; (assumption || discriminate).
Qed.

End Facts.

Lemma row_round_trip_witness :
  @Travel.valid_row Sample.offline Sample.row_main_st
  ∧ ∃ v, @Travel.visitFromStrings Sample.offline Sample.row_main_st = Some v
       ∧ @Travel.strings v = Sample.row_main_st.
Proof.
  split; [vm_compute; repeat split; reflexivity|].
  destruct (@row_round_trip Sample.offline
              "2020-01-01" "museum" "123 Main St" "40.0000" "-75.0000")
    as (v & la & ln & Hv & Hs & _);
    [vm_compute; repeat split; reflexivity|left; vm_compute; reflexivity|].
  exists v. split; [exact Hv|].
  vm_compute in Hv. injection Hv as <-. vm_compute. reflexivity.
Defined.

(** C7 as stated fails on a valid row whose coordinates are (0, 0) when
    the geocoder answers: the address and the coordinates written back
    are the geocoder's. *)
Lemma round_trip_resolved_row :
  @Travel.valid_row (Sample.geocoder 200)
     ["2020-01-01"; "museum"; "123 Main St"; "0"; "0"]%string
  ∧ ∃ v, @Travel.visitFromStrings (Sample.geocoder 200)
           ["2020-01-01"; "museum"; "123 Main St"; "0"; "0"]%string = Some v
       ∧ Travel.strings v
         = ["2020-01-01"; "museum"; "123 Main St, Springfield";
            "39.7817"; "-89.6501"]%string
       ∧ Travel.strings v !! 2%nat ≠ Some "123 Main St"%string.
Proof.
  split; [vm_compute; repeat split; reflexivity|].
  eexists. split; [vm_compute; reflexivity|].
  split; [vm_compute; reflexivity|vm_compute; discriminate].
Qed.

(** [resolve.go] writes six decimals. *)
Example resolve_round_trip_run :
  (@Resolve.strings <$>
     @Resolve.visitFromStrings Sample.offline
       ["2020-01-01"; "museum"; "123 Main St"; "12.34567"; "-75.0000"]%string)
  = Some ["2020-01-01"; "museum"; "123 Main St"; "12.345670"; "-75.000000"]%string.
Proof. vm_compute. reflexivity. Qed.

End RoundTripFacts.

(** ** Rows without five fields *)

Module RowFacts.

Section Facts.
Context `{Platform}.

Lemma resolve_visitFromStrings_length (row : list string) :
  is_Some (Resolve.visitFromStrings row) ↔ length row = 5%nat.
Proof.
  unfold Resolve.visitFromStrings.
  destruct row as [|f0 [|f1 [|f2 [|f3 [|f4 [|f5 r]]]]]]; simpl;
    split; intros Hx; try (by inversion Hx); try discriminate; try reflexivity.
  destruct (_ && _); [destruct (Resolve.loopkup _) as [[la ln] ad]|]; eauto.
Qed.

(** The parser returns nil exactly for the rows without five fields. *)
Lemma visitFromStrings_nil (row : list string) :
  length row ≠ 5%nat ↔
  Dedup.visitFromStrings row = None ∧ Travel.visitFromStrings row = None
  ∧ Resolve.visitFromStrings row = None.
Proof.
  pose proof (DedupFacts.visitFromStrings_five row) as Hd.
  pose proof (TravelFacts.visitFromStrings_length row) as Ht.
  pose proof (resolve_visitFromStrings_length row) as Hr.
  rewrite <- !not_eq_None_Some in *. split.
  - intros Hlen. repeat split.
    + destruct (Dedup.visitFromStrings row); [|reflexivity]. exfalso. apply Hlen, Hd. discriminate.
    + destruct (Travel.visitFromStrings row); [|reflexivity]. exfalso. apply Hlen, Ht. discriminate.
    + destruct (Resolve.visitFromStrings row); [|reflexivity]. exfalso. apply Hlen, Hr. discriminate.
  - intros (Hv & _ & _) Hlen. apply Hd in Hlen. contradiction.
Qed.

(** No caller tests for the nil: each program panics on such a row. *)
Lemma dedup_main_short_row file rows :
  Exists (λ row, length row ≠ 5%nat) rows → Dedup.main file rows = Panic.
Proof.
  intros Hex. unfold Dedup.main.
  destruct (Dedup.read_visits rows) as [vs|] eqn:Hrun; [|reflexivity].
  exfalso. assert (Hall : Forall (λ row, length row = 5%nat) rows).
  { apply DedupFacts.read_visits_Done. eauto. }
  apply Exists_exists in Hex as (row & Hin & Hlen).
  rewrite Forall_forall in Hall. apply Hlen, Hall, Hin.
Qed.

Lemma resolve_main_short_row file rows :
  Exists (λ row, length row ≠ 5%nat) rows → Resolve.main file rows = Panic.
Proof.
  intros Hex. unfold Resolve.main.
  assert (Hp : mapM deref (map Resolve.visitFromStrings rows) = Panic).
  { apply mapM_deref_Panic. apply Exists_exists in Hex as (row & Hin & Hlen).
    apply list_elem_of_fmap. exists row. split; [|exact Hin].
    destruct (Resolve.visitFromStrings row) eqn:Hv; [|reflexivity].
    exfalso. apply Hlen, resolve_visitFromStrings_length. eauto. }
  rewrite Hp. reflexivity.
Qed.

End Facts.

(** C2, on the code: a file whose rows have four fields.  The parser
    returns nil for the row, and each of the three programs then panics
    instead of dropping it. *)
Example short_row_panics :
  @Travel.visitFromStrings Sample.offline Sample.row_short = None
  ∧ @Travel.main Sample.offline "travel.csv" [Sample.row_short] = Panic
  ∧ @Dedup.main Sample.offline "travel.csv" [Sample.row_short] = Panic
  ∧ @Resolve.main Sample.offline "travel.csv" [Sample.row_short] = Panic.
Proof. repeat split; reflexivity. Qed.

End RowFacts.

(** ** Further properties of the programs *)

Module MoreFacts.

Section Facts.
Context `{Platform}.

(** X1.  Each of the three programs panics when the reader delivers a
    row that does not have five fields. *)
Theorem main_panics_on_short_row (file : string) (rows : list (list string)) :
  Exists (λ row, length row ≠ 5%nat) rows →
  Travel.main file rows = Panic
  ∧ Dedup.main file rows = Panic
  ∧ Resolve.main file rows = Panic.
Proof.
  intros Hex. split; [|split].
  - apply TravelFacts.main_short_row, Hex.
  - apply RowFacts.dedup_main_short_row, Hex.
  - apply RowFacts.resolve_main_short_row, Hex.
Qed.

(** X2.  When the request succeeds with a status of at most 299, a
    readable body and a parseable, non-empty list of results, [lookup]
    returns the location and the address of the first result, whatever
    the other results. *)
Theorem lookup_first_result search resp bs r rs :
  http_Get (Travel.request search) = Some resp →
  StatusCode resp ≤ 299 →
  Body resp = Readable bs →
  json_Unmarshal bs = Some (r :: rs) →
  Travel.lookup search = (Lat r, Lng r, Address r).
Proof. apply LookupFacts.lookup_success. Qed.

(** X3.  A row whose coordinates are not both 0 is never looked up: its
    visit is made of the row's fields alone. *)
Theorem resolved_row_not_looked_up (f0 f1 f2 f3 f4 : string) :
  Travel.unresolved [f0; f1; f2; f3; f4] = false →
  Travel.visitFromStrings [f0; f1; f2; f3; f4] =
  Some {| Travel.when := fst (Time.Parse (TrimSpace f0));
          Travel.purpose := TrimSpace f1;
          Travel.address := TrimSpace f2;
          Travel.lat := fst (ParseFloat (TrimSpace f3));
          Travel.lng := fst (ParseFloat (TrimSpace f4)) |}.
Proof.
  unfold Travel.unresolved, Travel.visitFromStrings. simpl. intros ->. reflexivity.
Qed.


Lemma Compare_lt (x y : Time.t) :
  (Time.Compare x y <? 0) = is_Lt (Time.compare x y).
Proof. unfold Time.Compare. destruct (Time.compare x y); reflexivity. Qed.

Lemma date_order : comparison_order (λ a b : Dedup.visit, Time.compare (Dedup.when a) (Dedup.when b)).
Proof.
  split.
  - intros a. apply time_compare_eq. reflexivity.
  - intros a b. apply time_compare_antisym.
  - intros a b c. apply time_compare_lt_trans.
  - intros a b c Hab. apply time_compare_eq in Hab. rewrite Hab. reflexivity.
Qed.

(** X5.  With a sorting routine that does what Go documents, the
    deduplicating program writes the features of the visits it kept,
    rearranged so that no visit comes before a visit of an earlier
    date. *)
Theorem dedup_sorted_by_date `{!Sorts H} file rows name fs :
  Dedup.main file rows = Done (name, fs) →
  ∃ kept vs,
    Dedup.read_visits rows = Done kept ∧ Permutation kept vs
    ∧ fs = Dedup.MarshalJSON <$> vs
    ∧ ∀ i j a b, (i < j)%nat → vs !! i = Some a → vs !! j = Some b →
        Time.Before (Dedup.when b) (Dedup.when a) = false.
Proof.
  unfold Dedup.main. destruct (Dedup.read_visits rows) as [kept|]; [|discriminate].
  simpl. unfold Dedup.saveVisits. intros [= <- <-].
  eexists kept, _. split; [reflexivity|]. split; [apply SortFunc_perm|].
  split; [reflexivity|]. intros i j a b Hij Hi Hj.
  assert (Hsw : strict_weak (λ a b : Dedup.visit,
                   Time.Compare (Dedup.when a) (Dedup.when b) <? 0)).
  { destruct (comparison_strict_weak _ date_order) as [Hi' Ht' Hn'].
    split; intros *; rewrite !Compare_lt; [apply Hi'|apply Ht'|apply Hn']. }
  pose proof (ascending_lookup _ _ (SortFunc_ascending _ _ kept Hsw) i j a b Hij Hi Hj)
    as Hba.
  simpl in Hba. rewrite Compare_lt in Hba. unfold Time.Before.
  destruct (Time.compare _ _); simpl in Hba; congruence.
Qed.

End Facts.

Lemma dedup_sorted_by_date_witness :
  ∃ name fs, @Dedup.main Sample.offline "travel.csv"
               [Sample.row_elm_st; Sample.row_north] = Done (name, fs)
           ∧ ∃ vs, fs = @Dedup.MarshalJSON Sample.offline <$> vs.
Proof.
  eexists _, _. split; [vm_compute; reflexivity|].
  destruct (@dedup_sorted_by_date Sample.offline _ "travel.csv"
              [Sample.row_elm_st; Sample.row_north] _ _ eq_refl)
    as (kept & vs & _ & _ & Hfs & _).
  exists vs. exact Hfs.
Defined.

Lemma main_panics_on_short_row_witness :
  Exists (λ row, length row ≠ 5%nat) [Sample.row_main_st; Sample.row_short]
  ∧ @Travel.main Sample.offline "travel.csv" [Sample.row_main_st; Sample.row_short]
    = Panic.
Proof.
  assert (Hex : Exists (λ row, length row ≠ 5%nat) [Sample.row_main_st; Sample.row_short]).
  { right. left. discriminate. }
  split; [exact Hex|].
  apply (proj1 (@main_panics_on_short_row Sample.offline "travel.csv" _ Hex)).
Defined.

Lemma lookup_first_result_witness :
  @Travel.lookup (Sample.geocoder 200) "123 Main St"
  = (F64.of_decimal 397817 4, F64.of_decimal (-896501) 4,
     "123 Main St, Springfield"%string).
Proof.
  eapply (@lookup_first_result (Sample.geocoder 200) "123 Main St" _ _
            Sample.main_st []);
    [reflexivity|simpl; lia|reflexivity|vm_compute; reflexivity].
Defined.

Lemma resolved_row_not_looked_up_witness :
  ∃ v, @Travel.visitFromStrings (Sample.geocoder 200) Sample.row_main_st = Some v
     ∧ Travel.address v = "123 Main St"%string.
Proof.
  eexists. split.
  - apply (@resolved_row_not_looked_up (Sample.geocoder 200)). vm_compute. reflexivity.
  - reflexivity.
Defined.


End MoreFacts.

(** ** Colours, further *)

Module PaletteFacts.
Import Travel Vocabulary.
#[local] Arguments Nat.modulo : simpl never.

Lemma palette_initial : palette_state initial.
Proof. split; [simpl; lia|]. intros y c Hy. simpl in Hy. by rewrite lookup_empty in Hy. Qed.

(** From package variables a run can reach, [colorForYear] returns and
    leaves such package variables. *)
Lemma colorForYear_Done (t : Time.t) (g : globals) :
  palette_state g →
  ∃ c g', colorForYear t g = Done (c, g') ∧ palette_state g' ∧ c ∈ colors.
Proof.
  intros [Hnext Hpal]. unfold colorForYear.
  destruct (yearToColor g !! Time.Year t) as [c|] eqn:Hy.
  - exists c, g. repeat split; eauto.
  - destruct (lookup_lt_is_Some_2 colors (nextColor g) Hnext) as [c Hc].
    rewrite Hc. simpl. eexists c, _. split; [reflexivity|].
    assert (Hin : c ∈ colors) by (eapply list_elem_of_lookup_2; eauto).
    split; [|exact Hin]. split; simpl.
    + apply Nat.mod_upper_bound. discriminate.
    + intros y c0 Hy0. rewrite lookup_insert in Hy0. case_decide.
      * by injection Hy0 as <-.
      * eauto.
Qed.

(** X6.  From package variables a run can reach, [colorForYear] does
    not panic; it returns a colour of the palette, which is from then on
    the colour of the year; no year that had a colour changes colour,
    and no other year gets one. *)
Theorem colorForYear_keeps_assignments (t : Time.t) (g : globals) :
  palette_state g →
  ∃ c g', colorForYear t g = Done (c, g')
        ∧ palette_state g'
        ∧ c ∈ colors
        ∧ yearToColor g' !! Time.Year t = Some c
        ∧ (∀ y c0, yearToColor g !! y = Some c0 → yearToColor g' !! y = Some c0)
        ∧ (∀ y, y ≠ Time.Year t → yearToColor g' !! y = yearToColor g !! y).
Proof.
  intros [Hnext Hpal]. unfold colorForYear.
  destruct (yearToColor g !! Time.Year t) as [c|] eqn:Hy.
  - exists c, g. repeat split; eauto.
  - destruct (lookup_lt_is_Some_2 colors (nextColor g) Hnext) as [c Hc].
    rewrite Hc. simpl. eexists c, _. split; [reflexivity|].
    assert (Hin : c ∈ colors) by (eapply list_elem_of_lookup_2; eauto).
    split; [|split; [exact Hin|split; [|split]]]; simpl.
    + split; simpl.
      * apply Nat.mod_upper_bound. discriminate.
      * intros y c0 Hy0. rewrite lookup_insert in Hy0. case_decide.
        -- by injection Hy0 as <-.
        -- eauto.
    + apply lookup_insert_eq.
    + intros y c0 Hy0. rewrite lookup_insert_ne; [exact Hy0|]. congruence.
    + intros y Hne. apply lookup_insert_ne. congruence.
Qed.

Lemma colorForYear_keeps_assignments_witness :
  palette_state initial
  ∧ ∃ c g', colorForYear (Time.mk 2020 6 15) initial = Done (c, g')
          ∧ yearToColor g' !! 2020 = Some c.
Proof.
  split; [apply palette_initial|].
  destruct (colorForYear_keeps_assignments (Time.mk 2020 6 15) initial palette_initial)
    as (c & g' & Hrun & _ & _ & Hy & _).
  exists c, g'. split; [exact Hrun|exact Hy].
Defined.

Lemma years_take_subseteq (ts : list Time.t) (i : nat) : years (take i ts) ⊆ years ts.
Proof.
  unfold years. intros y Hy. apply elem_of_list_to_set in Hy.
  apply elem_of_list_to_set. apply list_elem_of_fmap in Hy as (t & -> & Ht).
  apply list_elem_of_fmap. exists t. split; [reflexivity|].
  apply list_elem_of_lookup in Ht as [k Hk]. apply lookup_take_Some in Hk as [Hk _].
  eapply list_elem_of_lookup_2; eauto.
Qed.

Lemma years_take_mono (ts : list Time.t) (i j : nat) :
  (i ≤ j)%nat → years (take i ts) ⊆ years (take j ts).
Proof.
  intros Hij. replace (take i ts) with (take i (take j ts)).
  - apply years_take_subseteq.
  - rewrite take_take. f_equal. lia.
Qed.

Lemma year_in_take (ts : list Time.t) (i j : nat) (t : Time.t) :
  ts !! i = Some t → (i < j)%nat → Time.Year t ∈ years (take j ts).
Proof.
  intros Hi Hij. unfold years. apply elem_of_list_to_set, list_elem_of_fmap.
  exists t. split; [reflexivity|]. eapply list_elem_of_lookup_2.
  rewrite lookup_take_lt by exact Hij. exact Hi.
Qed.

(** The call at which a year of the run is first met. *)
Lemma first_call (ts : list Time.t) (i : nat) (t : Time.t) :
  ts !! i = Some t →
  ∃ k u, (k ≤ i)%nat ∧ ts !! k = Some u ∧ Time.Year u = Time.Year t
       ∧ Time.Year u ∉ years (take k ts).
Proof.
  revert i. induction ts as [|t0 ts IH]; intros i Hi; [discriminate|].
  destruct (decide (Time.Year t0 = Time.Year t)) as [Heq|Hne].
  - exists 0%nat, t0. split; [lia|]. split; [reflexivity|]. split; [exact Heq|].
    change (years (take 0 (t0 :: ts))) with (∅ : gset Z). apply not_elem_of_empty.
  - destruct i as [|i]; [simpl in Hi; congruence|]. simpl in Hi.
    destruct (IH i Hi) as (k & u & Hk & Hu & Hy & Hnew).
    exists (S k), u. split; [lia|]. split; [exact Hu|]. split; [exact Hy|].
    change (years (take (S k) (t0 :: ts)))
      with ({[Time.Year t0]} ∪ years (take k ts) : gset Z).
    intros Hin. apply elem_of_union in Hin as [Hin|Hin]; [|contradiction].
    apply elem_of_singleton in Hin. congruence.
Qed.

Lemma colors_NoDup : NoDup colors.
Proof. apply (bool_decide_unpack (NoDup colors)). vm_compute. reflexivity. Qed.

Lemma rank_lt (ts : list Time.t) (k : nat) (u : Time.t) :
  ts !! k = Some u → Time.Year u ∉ years (take k ts) →
  (size (years (take k ts)) < size (years ts))%nat.
Proof.
  intros Hk Hnew. apply subset_size. split; [apply years_take_subseteq|].
  intros Hsub. apply Hnew, Hsub. unfold years.
  apply elem_of_list_to_set, list_elem_of_fmap. exists u.
  split; [reflexivity|]. eapply list_elem_of_lookup_2; eauto.
Qed.

(** X7.  In a run that meets at most twelve distinct years, two calls
    return the same colour exactly when their years are the same: the
    colours tell the years apart. *)
Theorem colours_tell_years_apart (ts : list Time.t) :
  (size (years ts) ≤ 12)%nat →
  ∃ cs g, calls ts initial = Done (cs, g) ∧
    ∀ i j t u, ts !! i = Some t → ts !! j = Some u →
      (cs !! i = cs !! j ↔ Time.Year t = Time.Year u).
Proof.
  intros Hsize. destruct (ColorFacts.calls_tracks ts) as (cs & g & Hrun & Htr).
  exists cs, g. split; [exact Hrun|]. intros i j t u Hi Hj.
  rewrite (ColorFacts.tr_color _ _ _ Htr i t Hi), (ColorFacts.tr_color _ _ _ Htr j u Hj).
  split; [|intros ->; reflexivity]. intros Hsame.
  destruct (first_call ts i t Hi) as (k1 & t1 & _ & Hk1 & Hy1 & Hn1).
  destruct (first_call ts j u Hj) as (k2 & t2 & _ & Hk2 & Hy2 & Hn2).
  rewrite <- Hy1, <- Hy2 in *.
  rewrite <- (ColorFacts.tr_color _ _ _ Htr k1 t1 Hk1),
          <- (ColorFacts.tr_color _ _ _ Htr k2 t2 Hk2) in Hsame.
  rewrite (ColorFacts.tr_fresh _ _ _ Htr k1 t1 Hk1 Hn1),
          (ColorFacts.tr_fresh _ _ _ Htr k2 t2 Hk2 Hn2) in Hsame.
  pose proof (rank_lt ts k1 t1 Hk1 Hn1) as Hr1.
  pose proof (rank_lt ts k2 t2 Hk2 Hn2) as Hr2.
  change (length colors) with 12%nat in Hsame.
  rewrite !Nat.mod_small in Hsame by lia.
  destruct (lookup_lt_is_Some_2 colors (size (years (take k1 ts)))) as [c Hc];
    [simpl; lia|].
  rewrite Hc in Hsame. symmetry in Hsame.
  pose proof (NoDup_lookup _ _ _ _ colors_NoDup Hc Hsame) as Hrank.
  destruct (Nat.lt_trichotomy k1 k2) as [Hlt|[->|Hgt]].
  - exfalso. assert (Hsub : years (take k1 ts) ⊂ years (take k2 ts)).
    { split; [apply years_take_mono; lia|]. intros Hsub. apply Hn1, Hsub.
      eapply year_in_take; eauto. }
    apply subset_size in Hsub. lia.
  - congruence.
  - exfalso. assert (Hsub : years (take k2 ts) ⊂ years (take k1 ts)).
    { split; [apply years_take_mono; lia|]. intros Hsub. apply Hn2, Hsub.
      eapply year_in_take; eauto. }
    apply subset_size in Hsub. lia.
Qed.

Lemma colours_tell_years_apart_witness :
  ∃ cs g, calls [Time.mk 2020 1 1; Time.mk 2019 3 2; Time.mk 2020 6 15] initial
          = Done (cs, g)
        ∧ cs !! 0%nat = cs !! 2%nat ∧ cs !! 0%nat ≠ cs !! 1%nat.
Proof.
  destruct (colours_tell_years_apart
              [Time.mk 2020 1 1; Time.mk 2019 3 2; Time.mk 2020 6 15])
    as (cs & g & Hrun & Hiff); [vm_compute; lia|].
  exists cs, g. split; [exact Hrun|]. split.
  - apply (Hiff 0%nat 2%nat _ _ eq_refl eq_refl). reflexivity.
  - intros Heq. apply (Hiff 0%nat 1%nat _ _ eq_refl eq_refl) in Heq. discriminate.
Defined.

(** X8.  The palette is used in a cycle: a year met when twelve
    distinct years have had their colours gets the first colour of the
    palette, which is the colour of the first call of the run. *)
Theorem thirteenth_year_reuses_first_colour (ts : list Time.t) (t : Time.t) :
  size (years ts) = 12%nat → Time.Year t ∉ years ts →
  ∃ cs c g, calls (ts ++ [t]) initial = Done (cs ++ [c], g)
          ∧ length cs = length ts
          ∧ colors !! 0%nat = Some c ∧ cs !! 0%nat = Some c.
Proof.
  intros Hsize Hnew.
  destruct (ColorFacts.calls_tracks (ts ++ [t])) as (cs' & g & Hrun & Htr).
  pose proof (ColorFacts.tr_length _ _ _ Htr) as Hlen.
  rewrite length_app in Hlen. simpl in Hlen.
  destruct (decide (cs' = [])) as [->|Hne]; [simpl in Hlen; lia|].
  destruct (exists_last Hne) as (cs & c & ->).
  rewrite length_app in Hlen. simpl in Hlen.
  exists cs, c, g. split; [exact Hrun|]. split; [lia|].
  assert (Hlast : (cs ++ [c]) !! length ts = Some c).
  { replace (length ts) with (length cs) by lia. apply list_lookup_middle. reflexivity. }
  assert (Hc0 : colors !! 0%nat = Some c).
  { rewrite <- Hlast.
    rewrite (ColorFacts.tr_fresh _ _ _ Htr (length ts) t).
    - rewrite take_app_length, Hsize. reflexivity.
    - apply list_lookup_middle. reflexivity.
    - rewrite take_app_length. exact Hnew. }
  split; [exact Hc0|].
  destruct ts as [|t0 ts]; [vm_compute in Hsize; discriminate|].
  assert (H0 : (cs ++ [c]) !! 0%nat = colors !! 0%nat).
  { apply (ColorFacts.tr_fresh _ _ _ Htr 0%nat t0 eq_refl).
    change (years (take 0 ((t0 :: ts) ++ [t]))) with (∅ : gset Z).
    apply not_elem_of_empty. }
  destruct cs as [|c0 cs]; [simpl in Hlen; lia|].
  simpl in *. congruence.
Qed.

Lemma thirteenth_year_reuses_first_colour_witness :
  let ts := (λ y, Time.mk y 1 1) <$>
              [2001; 2002; 2003; 2004; 2005; 2006; 2007; 2008; 2009; 2010; 2011; 2012] in
  ∃ cs c g, calls (ts ++ [Time.mk 2013 1 1]) initial = Done (cs ++ [c], g)
          ∧ colors !! 0%nat = Some c ∧ cs !! 0%nat = Some c.
Proof.
  intros ts.
  destruct (thirteenth_year_reuses_first_colour ts (Time.mk 2013 1 1))
    as (cs & c & g & Hrun & _ & Hc & Hfirst).
  - vm_compute. reflexivity.
  - apply (bool_decide_unpack (Time.Year (Time.mk 2013 1 1) ∉ years ts)).
    vm_compute. reflexivity.
  - exists cs, c, g. auto.
Defined.

End PaletteFacts.


(** ** Deduplication, further *)

Module KeptFacts.
Import Dedup Vocabulary.

Section Facts.
Context `{Platform}.

Lemma omap_length_le {A B} (f : A → option B) (l : list A) :
  (length (omap f l) ≤ length l)%nat.
Proof.
  induction l as [|a l IH]; [reflexivity|].
  change (omap f (a :: l)) with (match f a with Some b => b :: omap f l | None => omap f l end).
  destruct (f a); cbn [length]; lia.
Qed.

Lemma same_lat4_eq (u v : visit) : same_lat4 u v = true ↔ lat4 u = lat4 v.
Proof. unfold same_lat4, lat4. apply String.eqb_eq. Qed.

Lemma read_visits_snoc_inv rows row vs' :
  read_visits (rows ++ [row]) = Done vs' →
  ∃ vs v, read_visits rows = Done vs ∧ visitFromStrings row = Some v
        ∧ vs' = if existsb (λ u, same_lat4 u v) (parsed rows) then vs else vs ++ [v].
Proof.
  intros Hrun.
  assert (Hall : Forall (λ row, length row = 5%nat) (rows ++ [row])).
  { apply DedupFacts.read_visits_Done. eauto. }
  rewrite Forall_app, Forall_singleton in Hall. destruct Hall as [Hrows Hrow].
  apply (proj1 (DedupFacts.read_visits_Done rows)) in Hrows as [vs Hvs].
  apply (proj2 (DedupFacts.visitFromStrings_five row)) in Hrow as [v Hv].
  exists vs, v. split; [exact Hvs|]. split; [exact Hv|].
  rewrite (DedupFacts.read_visits_snoc rows row vs v Hvs Hv) in Hrun.
  injection Hrun as <-. reflexivity.
Qed.

(** The visits the loop keeps are the first visit of each rounded
    latitude. *)
Lemma kept_first_occurrences rows vs :
  read_visits rows = Done vs →
  sublist vs (parsed rows)
  ∧ NoDup (lat4 <$> vs)
  ∧ (∀ u, u ∈ parsed rows → ∃ v, v ∈ vs ∧ lat4 v = lat4 u)
  ∧ head vs = head (parsed rows).
Proof.
  revert vs. induction rows as [|row rows IH] using rev_ind; intros vs' Hrun.
  - injection Hrun as <-. repeat split; try constructor.
    intros u Hu. inversion Hu.
  - apply read_visits_snoc_inv in Hrun as (vs & v & Hvs & Hv & ->).
    destruct (IH vs Hvs) as (Hsub & Hnd & Hcov & Hhd).
    rewrite DedupFacts.parsed_snoc, Hv.
    destruct (existsb (λ u, same_lat4 u v) (parsed rows)) eqn:Hex.
    + apply existsb_exists in Hex as (u & Hu & Hk).
      apply list_elem_of_In in Hu. apply same_lat4_eq in Hk.
      split; [apply sublist_inserts_r, Hsub|]. split; [exact Hnd|]. split.
      * intros w Hw. apply elem_of_app in Hw as [Hw|Hw]; [auto|].
        apply list_elem_of_singleton in Hw as ->.
        destruct (Hcov u Hu) as (k & Hkin & Hkk). exists k. split; [exact Hkin|]. congruence.
      * destruct (parsed rows) as [|p ps]; [inversion Hu|]. exact Hhd.
    + split; [apply sublist_app; [exact Hsub|reflexivity]|]. split; [|split].
      * rewrite fmap_app. apply NoDup_app. split; [exact Hnd|]. split.
        -- intros k Hk Hk'. apply list_elem_of_singleton in Hk'. subst k.
           apply list_elem_of_fmap in Hk as (w & Hw & Hwin).
           assert (Hwp : w ∈ parsed rows).
           { eapply elem_of_sublist; eauto. }
           assert (Hc : existsb (λ u, same_lat4 u v) (parsed rows) = true).
           { apply existsb_exists. exists w. split; [by apply list_elem_of_In|].
             apply same_lat4_eq. congruence. }
           congruence.
        -- simpl. apply NoDup_singleton.
      * intros w Hw. apply elem_of_app in Hw as [Hw|Hw].
        -- destruct (Hcov w Hw) as (k & Hkin & Hkk). exists k.
           split; [apply elem_of_app; auto|exact Hkk].
        -- apply list_elem_of_singleton in Hw as ->. exists v.
           split; [apply elem_of_app; right; by apply list_elem_of_singleton|reflexivity].
      * destruct (parsed rows) as [|p ps] eqn:Hp.
        -- apply sublist_nil_r in Hsub. subst vs. reflexivity.
        -- destruct vs as [|k ks]; [discriminate|]. exact Hhd.
Qed.

(** X9.  The visits the reading loop keeps are visits of the rows, in
    the order of the rows; no two of them have the same latitude rounded
    to 4 decimals; every row's rounded latitude is that of a kept visit;
    and the first row's visit is always the first kept. *)
Theorem dedup_keeps_first_of_each_latitude rows vs :
  read_visits rows = Done vs →
  sublist vs (parsed rows)
  ∧ (∀ i j a b, vs !! i = Some a → vs !! j = Some b → lat4 a = lat4 b → i = j)
  ∧ (∀ u, u ∈ parsed rows → ∃ v, v ∈ vs ∧ lat4 v = lat4 u)
  ∧ head vs = head (parsed rows).
Proof.
  intros Hrun. destruct (kept_first_occurrences rows vs Hrun) as (Hsub & Hnd & Hcov & Hhd).
  split; [exact Hsub|]. split; [|split; assumption].
  intros i j a b Hi Hj Hab.
  apply (NoDup_lookup _ i j (lat4 a) Hnd).
  - rewrite list_lookup_fmap, Hi. reflexivity.
  - rewrite list_lookup_fmap, Hj, Hab. reflexivity.
Qed.

(** X10.  With a sorting routine that returns a rearrangement of its
    input, [main] writes one feature for each distinct rounded latitude
    among the rows, no more and no less. *)
Theorem dedup_one_feature_per_latitude `{!Sorts H} file rows name fs :
  main file rows = Done (name, fs) →
  length fs = size (list_to_set (lat4 <$> parsed rows) : gset string)
  ∧ (length fs ≤ length rows)%nat.
Proof.
  unfold main. destruct (read_visits rows) as [vs|] eqn:Hrun; [|discriminate].
  simpl. unfold saveVisits. intros [= <- <-].
  destruct (kept_first_occurrences rows vs Hrun) as (Hsub & Hnd & Hcov & _).
  rewrite length_map.
  rewrite <- (Permutation_length (SortFunc_perm _ _ vs)).
  assert (Hset : (list_to_set (lat4 <$> parsed rows) : gset string)
                 = list_to_set (lat4 <$> vs)).
  { apply set_eq. intros k. rewrite !elem_of_list_to_set, !list_elem_of_fmap. split.
    - intros (u & -> & Hu). destruct (Hcov u Hu) as (v & Hv & Hk). eauto.
    - intros (v & -> & Hv). exists v. split; [reflexivity|].
      eapply elem_of_sublist; eauto. }
  split.
  - rewrite Hset, size_list_to_set by exact Hnd. rewrite length_fmap. reflexivity.
  - apply sublist_length in Hsub. etrans; [exact Hsub|].
    unfold parsed. apply omap_length_le.
Qed.

End Facts.

Lemma dedup_keeps_first_of_each_latitude_witness :
  ∃ vs, @read_visits Sample.offline
          [Sample.row_main_st; Sample.row_elm_st; Sample.row_north] = Done vs
      ∧ length vs = 2%nat
      ∧ head vs = head (@parsed Sample.offline
                          [Sample.row_main_st; Sample.row_elm_st; Sample.row_north]).
Proof.
  eexists. split; [vm_compute; reflexivity|]. split; [reflexivity|].
  apply (@dedup_keeps_first_of_each_latitude Sample.offline
           [Sample.row_main_st; Sample.row_elm_st; Sample.row_north]).
  vm_compute. reflexivity.
Defined.

Lemma dedup_one_feature_per_latitude_witness :
  let rows := [Sample.row_main_st; Sample.row_elm_st; Sample.row_north] in
  ∃ name fs, @main Sample.offline "travel.csv" rows = Done (name, fs)
           ∧ length fs = size (list_to_set (lat4 <$> @parsed Sample.offline rows) : gset string)
           ∧ (length fs ≤ length rows)%nat.
Proof.
  intros rows.
  destruct (@main Sample.offline "travel.csv" rows) as [[name fs]|] eqn:Hm;
    [|exfalso; vm_compute in Hm; discriminate].
  exists name, fs. split; [reflexivity|].
  exact (@dedup_one_feature_per_latitude Sample.offline _ "travel.csv" rows name fs Hm).
Defined.

End KeptFacts.


(** ** The converter with purposes: what a run writes, as a whole *)

Module DocumentFacts.
Import Travel Vocabulary.

(** The elements of [vs] sorted into the classes of [ps]: one class
    after the other, each class in the order of [vs]. *)
Lemma classes_filter {A B} `{EqDecision B} (key : A → B) (ps : list B) (vs : list A) :
  NoDup ps →
  concat ((λ p, filter (λ v, key v = p) vs) <$> ps)
  ≡ₚ filter (λ v, key v ∈ ps) vs.
Proof.
  induction 1 as [|p ps Hp Hnd IH]; simpl.
  - induction vs as [|v vs IHvs]; [reflexivity|].
    rewrite filter_cons. case_decide as Hv; [inversion Hv|exact IHvs].
  - rewrite IH. clear IH. induction vs as [|v vs IHvs]; [reflexivity|].
    rewrite !filter_cons.
    destruct (decide (key v = p)) as [Heq|Hne];
      destruct (decide (key v ∈ ps)) as [Hin|Hout];
      destruct (decide (key v ∈ p :: ps)) as [Hin'|Hout'].
    + exfalso. apply Hp. rewrite <- Heq. exact Hin.
    + exfalso. apply Hp. rewrite <- Heq. exact Hin.
    + simpl. f_equiv. exact IHvs.
    + exfalso. apply Hout'. rewrite Heq. left.
    + rewrite <- Permutation_middle. f_equiv. exact IHvs.
    + exfalso. apply Hout'. right. exact Hin.
    + exfalso. apply elem_of_cons in Hin' as [?|?]; contradiction.
    + exact IHvs.
Qed.

Lemma classes_cover {A B} `{EqDecision B} (key : A → B) (ps : list B) (vs : list A) :
  NoDup ps → (∀ v, v ∈ vs → key v ∈ ps) →
  concat ((λ p, filter (λ v, key v = p) vs) <$> ps) ≡ₚ vs.
Proof.
  intros Hnd Hall. rewrite (classes_filter key ps vs Hnd).
  induction vs as [|v vs IH]; [reflexivity|].
  rewrite filter_cons, decide_True by (apply Hall; left).
  f_equiv. apply IH. intros u Hu. apply Hall. right. exact Hu.
Qed.

Section Facts.
Context `{Platform}.

(** X11.  Whenever a run returns, the rewritten CSV file and the primary
    document go row by feature: they have the same length, and the
    feature at a position has the date, the purpose and the address of
    the CSV row at that position. *)
Theorem csv_rows_match_features file rows out :
  main file rows = Done out →
  ∃ primary parts,
    geojson out = primary :: parts
    ∧ fst primary = primary_name file
    ∧ length (snd primary) = length (csv out)
    ∧ ∀ i row f, csv out !! i = Some row → snd primary !! i = Some f →
        row !! 0%nat = Some (date f)
        ∧ row !! 1%nat = Some (marker_symbol f)
        ∧ row !! 2%nat = Some (name f).
Proof.
  intros Hmain.
  destruct (TravelFacts.main_Done file rows (TravelFacts.main_Done_rows _ _ _ Hmain))
    as [g Hg].
  rewrite Hg in Hmain. injection Hmain as <-.
  eexists _, _. split; [reflexivity|]. split; [reflexivity|].
  cbn [geojson csv fst snd].
  split; [by rewrite !length_fmap|].
  intros i row f Hrow Hf.
  rewrite list_lookup_fmap in Hrow. rewrite list_lookup_fmap in Hf.
  destruct (sort_Sort Less (parsed rows) !! i) as [v|]; [|discriminate].
  injection Hrow as <-. injection Hf as <-. auto.
Qed.

(** X12.  With a sorting routine that returns a rearrangement of its
    input, a run that returns rewrites every row: the CSV file it writes
    has one row of five fields for each row it read, namely the rows of
    the parsed visits, rearranged. *)
Theorem every_row_rewritten `{!Sorts H} file rows out :
  main file rows = Done out →
  Permutation (strings <$> parsed rows) (csv out)
  ∧ length (csv out) = length rows
  ∧ Forall (λ row, length row = 5%nat) (csv out).
Proof.
  intros Hmain.
  pose proof (TravelFacts.main_Done_rows _ _ _ Hmain) as Hall.
  destruct (TravelFacts.main_Done file rows Hall) as [g Hg].
  rewrite Hg in Hmain. injection Hmain as <-. cbn [geojson csv fst snd].
  split; [apply fmap_Permutation, sort_Sort_perm|]. split.
  - rewrite length_fmap, <- (Permutation_length (sort_Sort_perm _ Less (parsed rows))).
    rewrite <- (length_fmap Some (parsed rows)), <- (TravelFacts.parsed_all rows Hall).
    apply length_fmap.
  - apply Forall_fmap, Forall_forall. intros v _. reflexivity.
Qed.

(** X13.  The documents per purpose split the primary document: put
    one after the other, their features are the features of the primary
    document, rearranged; so every visit is in exactly one of them. *)
Theorem partitions_split_primary file rows out :
  main file rows = Done out →
  ∃ primary parts,
    geojson out = primary :: parts
    ∧ concat (snd <$> parts) ≡ₚ snd primary.
Proof.
  intros Hmain.
  destruct (TravelFacts.main_Done file rows (TravelFacts.main_Done_rows _ _ _ Hmain))
    as [g Hg].
  rewrite Hg in Hmain. injection Hmain as <-.
  eexists _, _. split; [reflexivity|]. cbn [geojson csv fst snd].
  set (vs := sort_Sort Less (parsed rows)).
  rewrite <- list_fmap_compose.
  transitivity (colored g <$> concat ((λ p, filter (λ v, purpose v = p) vs)
                   <$> elements (list_to_set (purpose <$> vs) : gset string))).
  - clear. induction (elements _) as [|p ps IH]; [reflexivity|].
    simpl. rewrite fmap_app, IH. reflexivity.
  - apply fmap_Permutation, classes_cover; [apply NoDup_elements|].
    intros v Hv. apply elem_of_elements, elem_of_list_to_set, list_elem_of_fmap.
    eauto.
Qed.

End Facts.

Lemma csv_rows_match_features_witness :
  let rows := [Sample.row_elm_st; Sample.row_main_st] in
  ∃ out primary parts,
    @main Sample.offline "travel.csv" rows = Done out
    ∧ geojson out = primary :: parts
    ∧ fst primary = @primary_name Sample.offline "travel.csv"
    ∧ length (snd primary) = length (csv out)
    ∧ ∀ i row f, csv out !! i = Some row → snd primary !! i = Some f →
        row !! 0%nat = Some (date f)
        ∧ row !! 1%nat = Some (marker_symbol f)
        ∧ row !! 2%nat = Some (name f).
Proof.
  intros rows.
  destruct (@main Sample.offline "travel.csv" rows) as [out|] eqn:Hm;
    [|exfalso; vm_compute in Hm; discriminate].
  exists out.
  destruct (@csv_rows_match_features Sample.offline "travel.csv" rows out Hm)
    as (primary & parts & Hdocs).
  exists primary, parts. split; [reflexivity|exact Hdocs].
Defined.

Lemma every_row_rewritten_witness :
  let rows := [Sample.row_elm_st; Sample.row_main_st] in
  ∃ out,
    @main Sample.offline "travel.csv" rows = Done out
    ∧ Permutation (@strings <$> @parsed Sample.offline rows) (csv out)
    ∧ length (csv out) = length rows
    ∧ Forall (λ row, length row = 5%nat) (csv out).
Proof.
  intros rows.
  destruct (@main Sample.offline "travel.csv" rows) as [out|] eqn:Hm;
    [|exfalso; vm_compute in Hm; discriminate].
  exists out. split; [reflexivity|].
  exact (@every_row_rewritten Sample.offline _ "travel.csv" rows out Hm).
Defined.

Lemma partitions_split_primary_witness :
  let rows := [Sample.row_elm_st; Sample.row_main_st] in
  ∃ out primary parts,
    @main Sample.offline "travel.csv" rows = Done out
    ∧ geojson out = primary :: parts
    ∧ concat (snd <$> parts) ≡ₚ snd primary.
Proof.
  intros rows.
  destruct (@main Sample.offline "travel.csv" rows) as [out|] eqn:Hm;
    [|exfalso; vm_compute in Hm; discriminate].
  exists out.
  destruct (@partitions_split_primary Sample.offline "travel.csv" rows out Hm)
    as (primary & parts & Hdocs).
  exists primary, parts. split; [reflexivity|exact Hdocs].
Defined.

End DocumentFacts.


(** ** [resolve.go]: what a run writes *)

Module ResolveFacts.
Import Vocabulary.

Section Facts.
Context `{Platform}.

Lemma resolve_parsed_all rows :
  Forall (λ row, length row = 5%nat) rows →
  Resolve.visitFromStrings <$> rows = Some <$> resolve_parsed rows.
Proof.
  unfold resolve_parsed. induction 1 as [|row rows Hrow _ IH]; simpl; [reflexivity|].
  apply RowFacts.resolve_visitFromStrings_length in Hrow as [v Hv]. rewrite Hv. simpl.
  f_equal. exact IH.
Qed.

(** What [json.MarshalIndent] makes of the visits: nothing once a visit
    has a coordinate that JSON cannot hold, and otherwise one feature
    for each visit, with the visit's own coordinates. *)
Lemma marshal_all_result (vs : list Travel.visit) :
  ∀ g, palette_state g →
  ∃ r g', Resolve.marshal_all vs g = Done (r, g') ∧ palette_state g'
    ∧ match r with
      | None => Exists (λ v, writable v = false) vs
      | Some fs =>
          Forall (λ v, writable v = true) vs
          ∧ Forall2 (λ v f, Travel.coordinates f = [Travel.lng v; Travel.lat v]
                          ∧ Travel.marker_symbol f = Travel.purpose v
                          ∧ Travel.marker_color f ∈ Travel.colors
                          ∧ Travel.date f = Time.Format (Travel.when v)
                          ∧ Travel.name f = Travel.address v) vs fs
      end.
Proof.
  induction vs as [|v vs IH]; intros g Hg.
  - exists (Some []), g. split; [reflexivity|]. split; [exact Hg|]. split; constructor.
  - cbn [Resolve.marshal_all]. unfold Resolve.MarshalJSON.
    destruct (PaletteFacts.colorForYear_Done (Travel.when v) g Hg)
      as (c & g1 & Hc & Hg1 & Hin).
    rewrite Hc. cbn [mbind outcome_bind Travel.coordinates forallb].
    rewrite andb_true_r. fold (writable v).
    destruct (writable v) eqn:Hw.
    + destruct (IH g1 Hg1) as (r & g2 & Hr & Hg2 & Hres). rewrite Hr.
      cbn [mbind outcome_bind]. eexists _, g2. split; [reflexivity|].
      split; [exact Hg2|]. destruct r as [fs|]; cbn [option_map].
      * destruct Hres as [Hall Hfs]. split; [by constructor|].
        constructor; [|exact Hfs]. repeat split; assumption.
      * by apply Exists_cons_tl.
    + eexists None, g1. split; [reflexivity|]. split; [exact Hg1|].
      by apply Exists_cons_hd.
Qed.

(** X14.  When every row has five fields, the run of [resolve.go]
    returns and rewrites the CSV file with the rows of the sorted
    visits; the GeoJSON document is empty exactly when a visit has a
    coordinate that is a NaN or an infinity, and holds otherwise one
    feature for each visit, in order, with the visit's coordinates as
    they are, its purpose, its date and its address. *)
Theorem resolve_document_needs_finite_coordinates file rows :
  Forall (λ row, length row = 5%nat) rows →
  let vs := sort_Sort Travel.Less (resolve_parsed rows) in
  ∃ out, Resolve.main file rows = Done out
    ∧ Resolve.csv out = Resolve.strings <$> vs
    ∧ match snd (Resolve.geojson out) with
      | None => ∃ v, v ∈ vs ∧ writable v = false
      | Some fs =>
          (∀ v, v ∈ vs → writable v = true)
          ∧ length fs = length vs
          ∧ ∀ i v f, vs !! i = Some v → fs !! i = Some f →
              Travel.coordinates f = [Travel.lng v; Travel.lat v]
              ∧ Travel.marker_symbol f = Travel.purpose v
              ∧ Travel.date f = Time.Format (Travel.when v)
              ∧ Travel.name f = Travel.address v
      end.
Proof.
  intros Hall vs. unfold Resolve.main.
  assert (Hm : mapM deref (map Resolve.visitFromStrings rows)
               = Done (resolve_parsed rows)).
  { apply mapM_deref_Done, resolve_parsed_all, Hall. }
  rewrite Hm. cbn [mbind outcome_bind]. fold vs.
  destruct (marshal_all_result vs Travel.initial PaletteFacts.palette_initial)
    as (r & g & Hr & _ & Hres).
  rewrite Hr. cbn [mbind outcome_bind]. eexists. split; [reflexivity|].
  cbn [Resolve.csv Resolve.geojson snd]. split; [reflexivity|].
  destruct r as [fs|].
  - destruct Hres as [Hw Hfs]. split; [|split].
    + intros v Hv. revert v Hv. apply Forall_forall. exact Hw.
    + symmetry. eapply Forall2_length. exact Hfs.
    + intros i v f Hv Hf.
      destruct (Forall2_lookup_lr _ _ _ i v f Hfs Hv Hf) as (? & ? & _ & ? & ?).
      auto.
  - apply Exists_exists in Hres. exact Hres.
Qed.

(** X15.  In [resolve.go], a row of five fields whose date is in the
    layout and whose coordinates parse to finite numbers that are not
    both 0 is written back with its date, purpose and address as they
    are, no blank removed, and with each coordinate written with 6
    decimals within 0.0000005 of the number parsed. *)
Theorem resolve_row_round_trip (f0 f1 f2 f3 f4 : string) :
  snd (Time.Parse f0) = false →
  F64.finite (fst (ParseFloat f3)) = true →
  F64.finite (fst (ParseFloat f4)) = true →
  resolve_unresolved [f0; f1; f2; f3; f4] = false →
  ∃ v la ln,
    Resolve.visitFromStrings [f0; f1; f2; f3; f4] = Some v
    ∧ Resolve.strings v = [f0; f1; f2; la; ln]
    ∧ F64.accurate 6 (fst (ParseFloat f3)) la
    ∧ F64.accurate 6 (fst (ParseFloat f4)) ln.
Proof.
  intros Hd Hfa Hfn Hz.
  unfold Resolve.visitFromStrings, resolve_unresolved in *.
  cbn [Travel.lat Travel.lng Travel.address Travel.when Travel.purpose] in *.
  rewrite Hz.
  assert (Hfmt : Time.Format (fst (Time.Parse f0)) = f0).
  { apply Parse_Format. destruct (Time.Parse f0) as [t b]. simpl in *. congruence. }
  eexists _, _, _. split; [reflexivity|]. unfold Resolve.strings.
  cbn [Travel.lat Travel.lng Travel.address Travel.when Travel.purpose].
  rewrite Hfmt. split; [reflexivity|].
  split; apply RoundTripFacts.FormatFloat_accurate; (assumption || discriminate).
Qed.

(** X16.  In [resolve.go], a row whose coordinates parse to (0, 0) and
    whose request is answered with a body that decodes to a list of
    results takes the address and the coordinates of the first result,
    whatever the status of the response: the status is never read. *)
Theorem resolve_row_geocoded (f0 f1 f2 f3 f4 : string) resp r rs :
  resolve_unresolved [f0; f1; f2; f3; f4] = true →
  http_Get (Resolve.request f2) = Some resp →
  json_Decode (Body resp) = Some (r :: rs) →
  ∃ v, Resolve.visitFromStrings [f0; f1; f2; f3; f4] = Some v
     ∧ Travel.when v = fst (Time.Parse f0)
     ∧ Travel.purpose v = f1
     ∧ Travel.address v = Address r
     ∧ Travel.lat v = Lat r
     ∧ Travel.lng v = Lng r
     ∧ Resolve.strings v
       = [Time.Format (fst (Time.Parse f0)); f1; Address r;
          F64.FormatFloat 6 (Lat r); F64.FormatFloat 6 (Lng r)].
Proof.
  intros Hz Hget Hdec.
  unfold Resolve.visitFromStrings, resolve_unresolved in *.
  cbn [Travel.lat Travel.lng Travel.address Travel.when Travel.purpose] in *.
  rewrite Hz. unfold Resolve.loopkup. fold (Resolve.request f2).
  rewrite Hget, Hdec. eexists. split; [reflexivity|]. repeat split.
Qed.

End Facts.

Lemma resolve_document_needs_finite_coordinates_witness :
  let rows := [Sample.row_main_st; Inputs.row_nan] in
  ∃ out, @Resolve.main Inputs.special "travel.csv" rows = Done out
    ∧ length (Resolve.csv out) = 2%nat
    ∧ snd (Resolve.geojson out) = None
    ∧ ∃ v, v ∈ @sort_Sort Inputs.special _ Travel.Less (@resolve_parsed Inputs.special rows)
         ∧ writable v = false.
Proof.
  intros rows.
  destruct (@resolve_document_needs_finite_coordinates Inputs.special "travel.csv" rows)
    as (out & Hout & Hcsv & Hdoc).
  { repeat constructor. }
  exists out. split; [exact Hout|].
  split; [rewrite Hcsv; vm_compute; reflexivity|].
  assert (Hnone : snd (Resolve.geojson out) = None).
  { vm_compute in Hout. injection Hout as <-. reflexivity. }
  rewrite Hnone in Hdoc. split; [exact Hnone|exact Hdoc].
Defined.

Lemma resolve_row_round_trip_witness :
  ∃ v, @Resolve.visitFromStrings Sample.offline
         ["2020-01-01"; " museum"; "123 Main St "; "12.34567"; "-75.0000"]%string = Some v
     ∧ Resolve.strings v
       = ["2020-01-01"; " museum"; "123 Main St "; "12.345670"; "-75.000000"]%string.
Proof.
  destruct (@resolve_row_round_trip Sample.offline
              "2020-01-01" " museum" "123 Main St " "12.34567" "-75.0000")
    as (v & la & ln & Hv & Hs & _);
    [vm_compute; reflexivity..|].
  exists v. split; [exact Hv|].
  vm_compute in Hv. injection Hv as <-. vm_compute. reflexivity.
Defined.

Lemma resolve_row_geocoded_witness :
  let P := Sample.platform
             (λ url, Some {| StatusCode := 404; Body := Readable url |})
             (λ _, Some [Sample.main_st]) in
  ∃ v, @Resolve.visitFromStrings P
         ["2020-01-01"; "museum"; "123 Main St"; "0"; "0"]%string = Some v
     ∧ Travel.address v = "123 Main St, Springfield"%string.
Proof.
  intros P.
  destruct (@resolve_row_geocoded P "2020-01-01" "museum" "123 Main St" "0" "0"
              {| StatusCode := 404; Body := Readable (@Resolve.request P "123 Main St") |}
              Sample.main_st [])
    as (v & Hv & _ & _ & Ha & _); [vm_compute; reflexivity|reflexivity|reflexivity|].
  exists v. split; [exact Hv|exact Ha].
Defined.

End ResolveFacts.


(** ** Rows that are looked up, and dates *)

Module FieldFacts.
Import Travel.

(** The date written for the time parsed from [s]: [s] itself, or the
    zero time's date when [s] is not a date. *)
Lemma Format_Parse (s : string) :
  Time.Format (fst (Time.Parse s))
  = if snd (Time.Parse s) then "0001-01-01"%string else s.
Proof.
  destruct (Time.Parse s) as [t b] eqn:Hp. destruct b; cbn [fst snd].
  - assert (Ht : t = Time.zero).
    { unfold Time.Parse in Hp.
      destruct (list_ascii_of_string s)
        as [|y1 [|y2 [|y3 [|y4 [|s1 [|m1 [|m2 [|s2 [|d1 [|d2 [|x r]]]]]]]]]]];
        try (injection Hp as <-; reflexivity).
      destruct (forallb _ _ && _ && _ && _ && _ && _ && _);
        [discriminate|injection Hp as <-; reflexivity]. }
    rewrite Ht. vm_compute. reflexivity.
  - apply Parse_Format. exact Hp.
Qed.

Lemma Parse_written (s : string) :
  Time.Parse (if snd (Time.Parse s) then "0001-01-01"%string else s)
  = (fst (Time.Parse s), false).
Proof.
  destruct (Time.Parse s) as [t b] eqn:Hp. destruct b; cbn [fst snd].
  - unfold Time.Parse in Hp.
    destruct (list_ascii_of_string s)
      as [|y1 [|y2 [|y3 [|y4 [|s1 [|m1 [|m2 [|s2 [|d1 [|d2 [|x r]]]]]]]]]]];
      try (injection Hp as <-; vm_compute; reflexivity).
    destruct (forallb _ _ && _ && _ && _ && _ && _ && _);
      [discriminate|injection Hp as <-; vm_compute; reflexivity].
  - exact Hp.
Qed.

Section Facts.
Context `{Platform}.

(** X17.  A row whose coordinates both parse to 0, as they do when the
    fields are blank, and whose request is answered with a status of at
    most 299 and a body that parses to a list of results is rewritten
    with the address and the coordinates of the first result; the date
    and the purpose stay the row's. *)
Theorem unresolved_row_geocoded (f0 f1 f2 f3 f4 : string) resp bs r rs :
  unresolved [f0; f1; f2; f3; f4] = true →
  http_Get (request (TrimSpace f2)) = Some resp →
  StatusCode resp ≤ 299 →
  Body resp = Readable bs →
  json_Unmarshal bs = Some (r :: rs) →
  ∃ v, visitFromStrings [f0; f1; f2; f3; f4] = Some v
     ∧ when v = fst (Time.Parse (TrimSpace f0))
     ∧ purpose v = TrimSpace f1
     ∧ address v = Address r ∧ lat v = Lat r ∧ lng v = Lng r
     ∧ strings v
       = [Time.Format (fst (Time.Parse (TrimSpace f0))); TrimSpace f1; Address r;
          F64.FormatFloat 4 (Lat r); F64.FormatFloat 4 (Lng r)].
Proof.
  intros Hz Hget Hst Hb Hj.
  unfold visitFromStrings, unresolved in *.
  cbn [lat lng address when purpose] in *.
  rewrite Hz, (LookupFacts.lookup_success _ resp bs r rs Hget Hst Hb Hj).
  eexists. split; [reflexivity|]. repeat split.
Qed.

(** X18.  The date field of a rewritten row is the trimmed date field
    of the row read when that is a date in the layout, and [0001-01-01]
    when it is not: the error of [time.Parse] is dropped and the zero
    time written.  Either way the field written parses, without error,
    to the date of the visit. *)
Theorem date_field_rewritten (f0 f1 f2 f3 f4 : string) (v : visit) :
  visitFromStrings [f0; f1; f2; f3; f4] = Some v →
  let written :=
    if snd (Time.Parse (TrimSpace f0)) then "0001-01-01"%string else TrimSpace f0 in
  strings v !! 0%nat = Some written
  ∧ Time.Parse written = (when v, false).
Proof.
  intros Hv written.
  assert (Hw : when v = fst (Time.Parse (TrimSpace f0))).
  { unfold visitFromStrings in Hv. cbn [lat lng address when purpose] in Hv.
    destruct (_ && _); [destruct (lookup _) as [[la ln] ad]|];
      injection Hv as <-; reflexivity. }
  rewrite Hw. split.
  - change (Some (Time.Format (when v)) = Some written). rewrite Hw.
    f_equal. apply Format_Parse.
  - apply Parse_written.
Qed.

End Facts.

Lemma unresolved_row_geocoded_witness :
  ∃ v, @visitFromStrings (Sample.geocoder 200)
         ["2020-01-01"; "museum"; "123 Main St"; " "; "n/a"]%string = Some v
     ∧ address v = "123 Main St, Springfield"%string
     ∧ @strings v
       = ["2020-01-01"; "museum"; "123 Main St, Springfield"; "39.7817"; "-89.6501"]%string.
Proof.
  destruct (@unresolved_row_geocoded (Sample.geocoder 200)
              "2020-01-01" "museum" "123 Main St" " " "n/a"
              {| StatusCode := 200;
                 Body := Readable (@request (Sample.geocoder 200) "123 Main St") |}
              (@request (Sample.geocoder 200) "123 Main St")
              Sample.main_st [])
    as (v & Hv & _ & _ & Ha & _ & _ & Hs);
    [vm_compute; reflexivity|reflexivity|simpl; lia|reflexivity|vm_compute; reflexivity|].
  exists v. split; [exact Hv|]. split; [exact Ha|].
  rewrite Hs. vm_compute. reflexivity.
Defined.

Lemma date_field_rewritten_witness :
  ∃ v, @visitFromStrings Sample.offline
         ["2020-02-30"; "museum"; "123 Main St"; "40.0000"; "-75.0000"]%string = Some v
     ∧ @strings v !! 0%nat = Some "0001-01-01"%string
     ∧ Time.Parse "0001-01-01" = (when v, false).
Proof.
  destruct (@visitFromStrings Sample.offline
              ["2020-02-30"; "museum"; "123 Main St"; "40.0000"; "-75.0000"]%string)
    as [v|] eqn:Hv; [|exfalso; vm_compute in Hv; discriminate].
  exists v. split; [reflexivity|].
  exact (@date_field_rewritten Sample.offline
           "2020-02-30" "museum" "123 Main St" "40.0000" "-75.0000" v Hv).
Defined.

End FieldFacts.

(** ** [visitList] as a [sort.Interface] *)

Module VisitListFacts.
Import VisitList.

Lemma index_Done {A} (l : list A) (i : Z) (x : A) :
  index l i = Done x ↔ 0 ≤ i ∧ l !! Z.to_nat i = Some x.
Proof.
  unfold index. destruct (Z.ltb_spec i 0).
  - split; [discriminate|lia].
  - destruct (l !! Z.to_nat i); simpl; split.
    + intros [= ->]. auto.
    + intros [_ [= ->]]. reflexivity.
    + discriminate.
    + intros [_ [=]].
Qed.

Lemma index_in_range {A} (l : list A) (i : Z) :
  0 ≤ i < Z.of_nat (length l) → ∃ x, index l i = Done x.
Proof.
  intros Hi. destruct (lookup_lt_is_Some_2 l (Z.to_nat i)) as [x Hx]; [lia|].
  exists x. apply index_Done. split; [lia|exact Hx].
Qed.

(** X19.  For positions within the list, [Swap] returns; the list keeps
    its length and its elements; the elements of the two positions have
    changed places and every other position is as it was; and a second
    [Swap] of the same positions gives the list back. *)
Theorem Swap_exchanges (l : list (option Travel.visit)) (a b : Z) :
  0 ≤ a < Len l → 0 ≤ b < Len l →
  ∃ l', Swap l a b = Done l'
      ∧ Len l' = Len l
      ∧ l' ≡ₚ l
      ∧ index l' a = index l b
      ∧ index l' b = index l a
      ∧ (∀ i, i ≠ a → i ≠ b → index l' i = index l i)
      ∧ Swap l' a b = Done l.
Proof.
  unfold Len. intros Ha Hb.
  destruct (index_in_range l a Ha) as [x Hx].
  destruct (index_in_range l b Hb) as [y Hy].
  pose proof (proj1 (index_Done _ _ _) Hx) as [_ Hxa].
  pose proof (proj1 (index_Done _ _ _) Hy) as [_ Hyb].
  set (l' := <[Z.to_nat b := x]> (<[Z.to_nat a := y]> l)).
  assert (Hl'b : l' !! Z.to_nat b = Some x).
  { unfold l'. apply list_lookup_insert_eq. rewrite length_insert. lia. }
  assert (Hl'a : l' !! Z.to_nat a = Some y).
  { destruct (decide (a = b)) as [->|Hab].
    - rewrite Hl'b. congruence.
    - unfold l'. rewrite list_lookup_insert_ne by lia.
      apply list_lookup_insert_eq. lia. }
  exists l'. split; [unfold Swap; rewrite Hy, Hx; reflexivity|].
  split; [unfold l'; by rewrite !length_insert|].
  split; [apply Permutation_insert_swap; assumption|].
  split; [rewrite Hy; apply index_Done; split; [lia|exact Hl'a]|].
  split; [rewrite Hx; apply index_Done; split; [lia|exact Hl'b]|].
  split.
  - intros i Hia Hib. unfold index. destruct (i <? 0) eqn:Hi; [reflexivity|].
    apply Z.ltb_ge in Hi. unfold l'. rewrite !list_lookup_insert_ne by lia.
    reflexivity.
  - unfold Swap.
    rewrite (proj2 (index_Done l' b x) (conj (proj1 Hb) Hl'b)).
    rewrite (proj2 (index_Done l' a y) (conj (proj1 Ha) Hl'a)).
    cbn [mbind outcome_bind]. f_equal. unfold l'.
    apply list_eq. intros i.
    destruct (decide (i = Z.to_nat b)) as [->|Hib].
    + rewrite list_lookup_insert_eq by (rewrite !length_insert; lia). congruence.
    + rewrite list_lookup_insert_ne by congruence.
      destruct (decide (i = Z.to_nat a)) as [->|Hia].
      * rewrite list_lookup_insert_eq by (rewrite !length_insert; lia). congruence.
      * rewrite !list_lookup_insert_ne by congruence. reflexivity.
Qed.

(** A position outside the list makes [Swap] and [Less] panic, and so
    does a nil at a position [Less] reads. *)
Lemma index_out_of_range {A} (l : list A) (i : Z) :
  ¬ 0 ≤ i < Z.of_nat (length l) → index l i = Panic.
Proof.
  intros Hi. unfold index. destruct (Z.ltb_spec i 0); [reflexivity|].
  rewrite (lookup_ge_None_2 l (Z.to_nat i)) by lia. reflexivity.
Qed.

(** X20.  On a list without nil, [Less] at positions within the list is
    the comparison of the two visits by date, then address, and it is
    the strict weak ordering [sort.Sort] asks for: no position is less
    than itself, less is transitive, and so is being neither less nor
    greater.  At a position outside the list [Less] panics. *)
Theorem Less_orders_positions (vs : list Travel.visit) :
  let l := Some <$> vs in
  let less a b := Less l a b = Done true in
  let same a b := Less l a b = Done false ∧ Less l b a = Done false in
  (∀ a b u v, 0 ≤ a → 0 ≤ b → vs !! Z.to_nat a = Some u → vs !! Z.to_nat b = Some v →
     Less l a b = Done (Travel.Less u v))
  ∧ (∀ a, 0 ≤ a < Len l → Less l a a = Done false)
  ∧ (∀ a b c, less a b → less b c → less a c)
  ∧ (∀ a b c, same a b → same b c → same a c)
  ∧ (∀ a b, ¬ 0 ≤ a < Len l ∨ ¬ 0 ≤ b < Len l → Less l a b = Panic).
Proof.
  intros l less same.
  assert (Hat : ∀ a u, 0 ≤ a → vs !! Z.to_nat a = Some u →
            index l a = Done (Some u)).
  { intros a u Ha Hu. apply index_Done. split; [exact Ha|].
    unfold l. rewrite list_lookup_fmap, Hu. reflexivity. }
  assert (Hval : ∀ a b u v, 0 ≤ a → 0 ≤ b →
            vs !! Z.to_nat a = Some u → vs !! Z.to_nat b = Some v →
            Less l a b = Done (Travel.Less u v)).
  { intros a b u v Ha Hb Hu Hv. unfold Less.
    rewrite (Hat a u Ha Hu), (Hat b v Hb Hv). reflexivity. }
  assert (Hinv : ∀ a b r, Less l a b = Done r →
            ∃ u v, 0 ≤ a ∧ 0 ≤ b ∧ vs !! Z.to_nat a = Some u
                 ∧ vs !! Z.to_nat b = Some v ∧ r = Travel.Less u v).
  { intros a b r. unfold Less.
    destruct (index l a) as [pa|] eqn:Hpa; [|discriminate].
    apply index_Done in Hpa as [Ha Hpa].
    unfold l in Hpa. rewrite list_lookup_fmap in Hpa.
    destruct (vs !! Z.to_nat a) as [u|] eqn:Hu; [|discriminate].
    injection Hpa as <-. cbn [mbind outcome_bind deref].
    destruct (index l b) as [pb|] eqn:Hpb; [|discriminate].
    apply index_Done in Hpb as [Hb Hpb].
    unfold l in Hpb. rewrite list_lookup_fmap in Hpb.
    destruct (vs !! Z.to_nat b) as [v|] eqn:Hv; [|discriminate].
    injection Hpb as <-. cbn [mbind outcome_bind deref].
    intros [= <-]. exists u, v. auto. }
  destruct TravelFacts.Less_strict_weak as [Hirr Htrans Hinc].
  split; [exact Hval|]. split; [|split; [|split]].
  - intros a Ha. unfold Len, l in Ha. rewrite length_fmap in Ha.
    destruct (lookup_lt_is_Some_2 vs (Z.to_nat a)) as [u Hu]; [lia|].
    rewrite (Hval a a u u) by (lia || assumption). f_equal. apply Hirr.
  - unfold less. intros a b c Hab Hbc.
    apply Hinv in Hab as (u & v & Ha & Hb & Hu & Hv & Huv).
    apply Hinv in Hbc as (v' & w & _ & Hc & Hv' & Hw & Hvw).
    assert (v' = v) by congruence. subst v'.
    rewrite (Hval a c u w) by assumption. f_equal.
    apply (Htrans u v w); congruence.
  - unfold same. intros a b c [Hab Hba] [Hbc Hcb].
    apply Hinv in Hab as (u & v & Ha & Hb & Hu & Hv & Huv).
    apply Hinv in Hba as (v1 & u1 & _ & _ & Hv1 & Hu1 & Hvu).
    apply Hinv in Hbc as (v2 & w & _ & Hc & Hv2 & Hw & Hvw).
    apply Hinv in Hcb as (w1 & v3 & _ & _ & Hw1 & Hv3 & Hwv).
    assert (v1 = v) by congruence. assert (u1 = u) by congruence.
    assert (v2 = v) by congruence. assert (w1 = w) by congruence.
    assert (v3 = v) by congruence. subst.
    destruct (Hinc u v w) as [Huw Hwu]; try congruence.
    rewrite (Hval a c u w), (Hval c a w u) by assumption.
    split; f_equal; assumption.
  - intros a b Hout. unfold Less.
    destruct (index l a) as [pa|] eqn:Hpa.
    + destruct Hout as [Hout|Hout].
      * rewrite (index_out_of_range l a Hout) in Hpa. discriminate.
      * rewrite (index_out_of_range l b Hout).
        destruct pa; reflexivity.
    + reflexivity.
Qed.

(** X21.  A nil in the list makes [Less] panic as soon as it is asked
    about the nil's position, whatever the other position is. *)
Theorem Less_panics_on_nil (l : list (option Travel.visit)) (a b : Z) :
  0 ≤ a → l !! Z.to_nat a = Some None →
  Less l a b = Panic ∧ Less l b a = Panic.
Proof.
  intros Ha Hnil.
  assert (Hia : index l a = Done None) by (apply index_Done; auto).
  unfold Less. rewrite Hia. split; [reflexivity|].
  destruct (index l b) as [[v|]|]; reflexivity.
Qed.

Lemma Swap_exchanges_witness :
  let u := {| Travel.address := "9 Elm St"; Travel.when := Time.mk 2020 6 15;
              Travel.purpose := "work"; Travel.lat := F64.zero; Travel.lng := F64.zero |} in
  Swap [Some u; None] 0 1 = Done [None; Some u].
Proof.
  intros u.
  destruct (Swap_exchanges [Some u; None] 0 1) as (l' & Hl' & _);
    [vm_compute; split; congruence|vm_compute; split; congruence|].
  rewrite Hl'. vm_compute in Hl'. injection Hl' as <-. reflexivity.
Defined.

Lemma Less_panics_on_nil_witness :
  let u := {| Travel.address := "9 Elm St"; Travel.when := Time.mk 2020 6 15;
              Travel.purpose := "work"; Travel.lat := F64.zero; Travel.lng := F64.zero |} in
  Less [Some u; None] 1 0 = Panic ∧ Less [Some u; None] 0 1 = Panic.
Proof.
  intros u. apply (Less_panics_on_nil [Some u; None] 1 0); [lia|reflexivity].
Defined.

End VisitListFacts.

(** * Running the embedding *)

Example format_40 : F64.FormatFloat 4 (F64.of_int 40) = "40.0000"%string.
Proof. vm_compute. reflexivity. Qed.

Example format_neg75 : F64.FormatFloat 4 (F64.of_int (-75)) = "-75.0000"%string.
Proof. vm_compute. reflexivity. Qed.

Example format_round_up :
  F64.FormatFloat 4 (F64.of_decimal 1234567 5) = "12.3457"%string.
Proof. vm_compute. reflexivity. Qed.

Example format_tie_even :
  F64.FormatFloat 4 (F64.of_decimal 3125 5) = "0.0312"%string.
Proof. vm_compute. reflexivity. Qed.

Example format_small_negative :
  F64.FormatFloat 4 (F64.of_decimal (-1) 5) = "-0.0000"%string.
Proof. vm_compute. reflexivity. Qed.

Example format_six :
  F64.FormatFloat 6 (F64.of_decimal 1234567 5) = "12.345670"%string.
Proof. vm_compute. reflexivity. Qed.

Example parse_date :
  Time.Parse "2020-06-15" = (Time.mk 2020 6 15, false).
Proof. reflexivity. Qed.

Example parse_date_bad_day :
  Time.Parse "2021-02-29" = (Time.zero, true).
Proof. reflexivity. Qed.

Example parse_date_short : Time.Parse "2020-6-15" = (Time.zero, true).
Proof. reflexivity. Qed.

Example format_date : Time.Format (Time.mk 2020 6 15) = "2020-06-15"%string.
Proof. reflexivity. Qed.

Example format_zero_time : Time.Format Time.zero = "0001-01-01"%string.
Proof. reflexivity. Qed.

Example sample_trim : Sample.trim "  123 Main St " = "123 Main St"%string.
Proof. reflexivity. Qed.

Example sample_parse_1 :
  Sample.parse_decimal "12.34567" = (F64.of_decimal 1234567 5, None).
Proof. vm_compute. reflexivity. Qed.

Example sample_parse_2 : Sample.parse_decimal "-75.0000" = (F64.of_int (-75), None).
Proof. vm_compute. reflexivity. Qed.

Example sample_parse_3 : Sample.parse_decimal "north" = (F64.zero, Some ErrSyntax).
Proof. vm_compute. reflexivity. Qed.

Example sample_replace :
  @strings_Replace1 Sample.offline "travel.csv" ".csv" ".geojson" = "travel.geojson"%string.
Proof. vm_compute. reflexivity. Qed.

Example sample_sort :
  Sample.insertion_sort Z.ltb [3; 1; 2; 1] = [1; 1; 2; 3].
Proof. reflexivity. Qed.
